(** * music-importer: a shallow embedding of the import pipeline

    The Go program tags freshly downloaded album folders, applies
    ReplayGain, embeds cover art, files the tracks under
    [LIBRARY_DIR/artist/album], and has a helper that downloads [.lrc]
    lyrics.  This development embeds [lrc.go], the importer and the
    [media] package, and states the properties of the specification
    against them.

    Go strings are byte strings: [string] here is Rocq's list of
    [ascii] bytes.  Go's [int] is modelled as [Z] (no value in this
    program approaches the 64-bit range except the float conversion,
    which is spelled out), [float64] as Rocq's primitive binary64
    floats.  Everything the program does to the outside world
    (subprocesses, files, HTTP) is an effect of a small free monad whose
    answers are chosen by the environment. *)

From Stdlib Require Import ZArith Lia List String Ascii Floats.
From stdpp Require Import base option list strings gmap pretty.
Import ListNotations.

Set Warnings "-inexact-float,-register-all".
Local Open Scope string_scope.

(* ===================================================================== *)
(** * Go's [strings] and [path/filepath], as far as the program uses them *)
(* ===================================================================== *)

Module GoStrings.

(** [strings.HasPrefix(s, prefix)] *)
Definition HasPrefix (s prefix : string) : bool := String.prefix prefix s.

(** Bytes of a string, first to last, and back. *)
Fixpoint bytes (s : string) : list ascii :=
  match s with
  | EmptyString => []
  | String c r => c :: bytes r
  end.

Fixpoint of_bytes (l : list ascii) : string :=
  match l with
  | [] => EmptyString
  | c :: r => String c (of_bytes r)
  end.

Definition rev_string (s : string) : string := of_bytes (rev (bytes s)).

(** [strings.HasSuffix(s, suffix)] *)
Definition HasSuffix (s suffix : string) : bool :=
  String.prefix (rev_string suffix) (rev_string s).

(** [strings.TrimSuffix(s, suffix)]: [s] without the trailing [suffix],
    or [s] itself when it does not end with it. *)
Definition TrimSuffix (s suffix : string) : string :=
  if HasSuffix s suffix
  then String.substring 0 (String.length s - String.length suffix) s
  else s.

(** [strings.ToLower] on the ASCII letters.  Go also lowers the letters
    outside ASCII; the program compares the result only with the
    literals [.mp3], [.flac] and the cover names, none of which holds a
    letter (i, k) that a non-ASCII rune lowers to, so the comparisons
    come out the same. *)
Definition lower_byte (c : ascii) : ascii :=
  let n := nat_of_ascii c in
  if (65 <=? n)%nat && (n <=? 90)%nat then ascii_of_nat (n + 32) else c.

Fixpoint ToLower (s : string) : string :=
  match s with
  | EmptyString => EmptyString
  | String c r => String (lower_byte c) (ToLower r)
  end.

(** [strings.ReplaceAll(s, old, new)] for a one-byte [old]. *)
Fixpoint ReplaceAll (s : string) (old : ascii) (new : string) : string :=
  match s with
  | EmptyString => EmptyString
  | String c r =>
      if Ascii.eqb c old then new ++ ReplaceAll r old new
      else String c (ReplaceAll r old new)
  end.

(** [strings.Split(s, sep)] for a one-byte separator: the pieces between
    the separators, [n + 1] pieces for [n] separators. *)
Fixpoint Split (s : string) (sep : ascii) : list string :=
  match s with
  | EmptyString => [EmptyString]
  | String c r =>
      if Ascii.eqb c sep then EmptyString :: Split r sep
      else match Split r sep with
           | [] => [String c EmptyString]
           | piece :: pieces => String c piece :: pieces
           end
  end.

(** The UTF-8 encodings of the runes for which [unicode.IsSpace] holds:
    tab, line feed, vertical tab, form feed, carriage return, space,
    U+0085, U+00A0, U+1680, U+2000..U+200A, U+2028, U+2029, U+202F,
    U+205F, U+3000. *)
Definition space_runes : list string :=
  map of_bytes
    (List.app
       [ ["009"]; ["010"]; ["011"]; ["012"]; ["013"]; [" "];
         ["194"; "133"]; ["194"; "160"]; ["225"; "154"; "128"] ]
       (List.app
          (map (fun c => ["226"; "128"; c])
             [ "128"; "129"; "130"; "131"; "132"; "133"; "134"; "135";
               "136"; "137"; "138"; "168"; "169"; "175" ])
          [ ["226"; "129"; "159"]; ["227"; "128"; "128"] ]))%char.

(** The rest of [s] after a leading white-space rune, if it has one. *)
Definition drop_space (s : string) : option string :=
  match List.filter (fun r => String.prefix r s) space_runes with
  | r :: _ => Some (String.substring (String.length r)
                                      (String.length s - String.length r) s)
  | [] => None
  end.

Fixpoint trim_left (fuel : nat) (s : string) : string :=
  match fuel with
  | O => s
  | S fuel' => match drop_space s with
               | Some r => trim_left fuel' r
               | None => s
               end
  end.

(** [strings.TrimLeftFunc(s, unicode.IsSpace)]; a string has at most
    [length s] leading runes. *)
Definition TrimLeft (s : string) : string := trim_left (String.length s) s.

(** [strings.TrimRightFunc(s, unicode.IsSpace)]: the encoding of a rune
    read backwards from the end is the mirror image of the forward one. *)
Definition drop_space_right (s : string) : option string :=
  match List.filter (fun r => HasSuffix s r) space_runes with
  | r :: _ => Some (String.substring 0 (String.length s - String.length r) s)
  | [] => None
  end.

Fixpoint trim_right (fuel : nat) (s : string) : string :=
  match fuel with
  | O => s
  | S fuel' => match drop_space_right s with
               | Some r => trim_right fuel' r
               | None => s
               end
  end.

Definition TrimRight (s : string) : string := trim_right (String.length s) s.

(** [strings.TrimSpace(s)] *)
Definition TrimSpace (s : string) : string := TrimRight (TrimLeft s).

(** [strings.Join(elems, sep)] *)
Definition Join (elems : list string) (sep : string) : string :=
  String.concat sep elems.

End GoStrings.

Module FilePath.
Import GoStrings.

Definition Separator : ascii := "/".

(** Index-free reading of the loops in [path/filepath]: the last element
    of a path is what follows its last separator. *)
Definition last_element (path : string) : string :=
  List.last (Split path Separator) EmptyString.

(** The suffix of [s] from its last dot on, or the empty string. *)
Fixpoint from_last_dot (s : string) : string :=
  match s with
  | EmptyString => EmptyString
  | String c r =>
      match from_last_dot r with
      | EmptyString => if Ascii.eqb c "." then s else EmptyString
      | ext => ext
      end
  end.

(** [filepath.Ext(path)]: the suffix beginning at the final dot in the
    final element of [path]; empty if there is no dot. *)
Definition Ext (path : string) : string := from_last_dot (last_element path).

(** [filepath.Clean(path)] on Unix: the shortest equivalent path by
    lexical processing. *)
Definition clean_step (rooted : bool) (stack : list string) (elem : string)
  : list string :=
  if String.eqb elem "" || String.eqb elem "." then stack
  else if String.eqb elem ".." then
    match stack with
    | top :: below => if String.eqb top ".." then elem :: stack else below
    | [] => if rooted then [] else [elem]
    end
  else elem :: stack.

Definition Clean (path : string) : string :=
  let rooted := HasPrefix path "/" in
  let stack := fold_left (clean_step rooted) (Split path Separator) [] in
  let body := Join (rev stack) "/" in
  if rooted then "/" ++ body
  else if String.eqb body "" then "." else body.

(** [filepath.Join(elem...)]: the non-empty elements joined by the
    separator and cleaned; empty when every element is empty. *)
Definition Join (elems : list string) : string :=
  match List.filter (fun e => negb (String.eqb e "")) elems with
  | [] => ""
  | nonempty => Clean (GoStrings.Join nonempty "/")
  end.

Fixpoint strip_trailing_slashes (fuel : nat) (s : string) : string :=
  match fuel with
  | O => s
  | S fuel' =>
      if HasSuffix s "/" && (1 <? String.length s)%nat
      then strip_trailing_slashes fuel'
             (String.substring 0 (String.length s - 1) s)
      else s
  end.

(** [filepath.Base(path)]: the last element of [path] after its trailing
    slashes are removed; [.] for the empty path, [/] for a path of
    slashes only. *)
Definition Base (path : string) : string :=
  if String.eqb path "" then "."
  else
    let p := strip_trailing_slashes (String.length path) path in
    let b := last_element p in
    if String.eqb b "" then "/" else b.

End FilePath.

(* ===================================================================== *)
(** * Go values: errors, multiple results, float to int                  *)
(* ===================================================================== *)

Module Go.

(** A Go [error] value that is not [nil].  [nil] is [None] of
    [option error].  The two sentinels of [path/filepath] are compared by
    identity in Go, so they get constructors of their own. *)
Inductive error : Type :=
| ErrExt (msg : string)                  (* from the OS, a subprocess or a library *)
| ErrNew (msg : string)                  (* errors.New, fmt.Errorf without %w *)
| ErrWrap (ctx : string) (cause : error) (* fmt.Errorf("ctx: %w", cause) *)
| SkipDir
| SkipAll.

Definition is_SkipDir (e : option error) : bool :=
  match e with Some SkipDir => true | _ => false end.

Definition is_SkipAll (e : option error) : bool :=
  match e with Some SkipAll => true | _ => false end.

(** [err != nil] *)
Definition notnil {A : Type} (e : option A) : bool :=
  match e with Some _ => true | None => false end.

(** [s == ""] *)
Definition is_empty (s : string) : bool := String.eqb s "".

(** The value [int(f)] of a [float64] on amd64: the fraction is
    discarded; a value that does not fit 64 bits, an infinity or a NaN
    gives the "integer indefinite" value [-2^63] (the language leaves
    that case to the implementation). *)
Definition int_indefinite : Z := (- 2 ^ 63)%Z.

Definition int_of_float (f : float) : Z :=
  match Prim2SF f with
  | S754_zero _ => 0%Z
  | S754_finite neg m e =>
      let mag := if (0 <=? e)%Z then Z.shiftl (Z.pos m) e
                 else Z.shiftr (Z.pos m) (- e) in
      let v := if neg then (- mag)%Z else mag in
      if ((- 2 ^ 63 <=? v) && (v <? 2 ^ 63))%Z then v else int_indefinite
  | S754_infinity _ | S754_nan => int_indefinite
  end.

(** The verb [%d] of [fmt]. *)
Definition format_int (n : Z) : string := pretty n.

End Go.
Export Go.

(* ===================================================================== *)
(** * The outside world: effects and their answers                       *)
(* ===================================================================== *)

(** [os.DirEntry] and [os.FileInfo], as far as the program looks at them. *)
Record FileInfo : Type := mkFileInfo { Name : string; IsDir : bool }.

(** What [filepath.Walk] finds below a path: [os.Lstat] fails ([TBad]),
    or gives a file, or a directory together with what [readDirNames]
    returns for it (the sorted entries, or an error).  The walk functions
    of this program add files next to the ones being visited and change
    files in place; they never add an audio file or a directory, so a walk
    over the tree as it is when the walk starts visits what Go's walk
    visits. *)
Inductive FileTree : Type :=
| TFile (name : string)
| TDir (name : string) (readErr : option error) (entries : list FileTree)
| TBad (name : string) (lstatErr : error).

Definition tree_name (t : FileTree) : string :=
  match t with TFile n | TDir n _ _ | TBad n _ => n end.

Definition tree_is_dir (t : FileTree) : bool :=
  match t with TDir _ _ _ => true | _ => false end.

(** The result of running a subprocess to completion. *)
Record CmdResult : Type :=
  mkCmdResult { Stdout : string; Stderr : string; RunErr : option error }.

(** [*http.Response] with its body read to the end by [io.ReadAll]. *)
Record HttpResponse : Type :=
  mkHttpResponse { StatusCode : Z; Body : string; BodyErr : option error }.

(** [id3v2.PictureFrame] *)
Record PictureFrame : Type :=
  mkPictureFrame { MimeType : string; PictureType : Z;
                   Description : string; Picture : string }.

Inductive effect : Type :=
| Getenv (key : string)
| ReadDir (name : string)
| Lstat (root : string)
| Stat (name : string)
| ReadFile (name : string)
| WriteFile (name data : string)
| MkdirAll (path : string)
| Rename (oldpath newpath : string)
| Remove (name : string)
| Exec (name : string) (args : list string)
| HttpGet (url : string)
| BodyClose (url : string)
| LookPath (file : string)
| CreateTemp (dir pattern : string)
| TmpWrite (name data : string)
| TmpSync (name : string)
| TmpClose (name : string)
| ID3Open (path : string)
| ID3Save (path : string) (pic : PictureFrame)
| ID3Close (path : string).

(** The type of the answer to each effect; an [option error] is Go's
    [error] result, a pair is a Go pair of results. *)
Definition resp (e : effect) : Type :=
  match e with
  | Getenv _ => string
  | ReadDir _ => (list FileInfo * option error)%type
  | Lstat _ => FileTree
  | ReadFile _ => (string * option error)%type
  | Exec _ _ => CmdResult
  | HttpGet _ => (HttpResponse * option error)%type
  | CreateTemp _ _ => (string * option error)%type
  | BodyClose _ | TmpClose _ | ID3Close _ => unit
  | Stat _ | WriteFile _ _ | MkdirAll _ | Rename _ _ | Remove _
  | LookPath _ | TmpWrite _ _ | TmpSync _ | ID3Open _ | ID3Save _ _ =>
      option error
  end.

(** A program: it returns, panics, or performs an effect and goes on with
    the answer.  Console output ([fmt.Println], [log.Println]) is not an
    effect here: no property depends on it. *)
Inductive Prog (A : Type) : Type :=
| Ret (a : A)
| Panic (msg : string)
| Vis (e : effect) (k : resp e -> Prog A).
Arguments Ret {A} a.
Arguments Panic {A} msg.
Arguments Vis {A} e k.

Fixpoint bind {A B : Type} (p : Prog A) (f : A -> Prog B) : Prog B :=
  match p with
  | Ret a => f a
  | Panic msg => Panic msg
  | Vis e k => Vis e (fun r => bind (k r) f)
  end.

#[global] Instance Prog_ret : MRet Prog := fun _ a => Ret a.
#[global] Instance Prog_bind : MBind Prog := fun _ _ f p => bind p f.

Definition trigger (e : effect) : Prog (resp e) := Vis e Ret.

(** [defer cleanup] at the top of [body]: [cleanup] runs when [body]
    returns and when it panics. *)
Fixpoint defer {A : Type} (cleanup : Prog unit) (body : Prog A) : Prog A :=
  match body with
  | Ret a => bind cleanup (fun _ => Ret a)
  | Panic msg => bind cleanup (fun _ => Panic msg)
  | Vis e k => Vis e (fun r => defer cleanup (k r))
  end.

(** [*p] for a pointer [p]: a nil pointer panics. *)
Definition deref {A : Type} (p : option A) : Prog A :=
  match p with
  | Some a => Ret a
  | None => Panic "invalid memory address or nil pointer dereference"
  end.

(** [l[i]] for a slice [l]: an index out of range panics. *)
Definition index {A : Type} (l : list A) (i : nat) : Prog A :=
  match l !! i with
  | Some a => Ret a
  | None => Panic "index out of range"
  end.

(** ** Runs *)

Inductive outcome (A : Type) : Type :=
| Returned (a : A)
| Panicked (msg : string).
Arguments Returned {A} a.
Arguments Panicked {A} msg.

(** One step of a run: the effect and the answer it got. *)
Record event : Type := Ev { ev_eff : effect; ev_resp : resp ev_eff }.

Definition calls (tr : list event) : list effect := map ev_eff tr.

(** [exec p tr o]: some environment makes [p] perform exactly [tr] and end
    in [o].  Every program is a finite tree, so every run ends. *)
Fixpoint exec {A : Type} (p : Prog A) (tr : list event) (o : outcome A) : Prop :=
  match p with
  | Ret a => tr = [] /\ o = Returned a
  | Panic msg => tr = [] /\ o = Panicked msg
  | Vis e k => exists (r : resp e) (tr' : list event),
      tr = Ev e r :: tr' /\ exec (k r) tr' o
  end.

(** An environment with a state of its own: it answers an effect from its
    state and moves to a new state.  [run h s p] is the run of [p] against
    [h] from [s]: the events, the final state and the outcome. *)
Definition Handler (S : Type) : Type := forall e : effect, S -> resp e * S.

Fixpoint run {S A : Type} (h : Handler S) (s : S) (p : Prog A)
  : list event * S * outcome A :=
  match p with
  | Ret a => ([], s, Returned a)
  | Panic msg => ([], s, Panicked msg)
  | Vis e k =>
      let '(r, s1) := h e s in
      let '(tr, s2, o) := run h s1 (k r) in
      (Ev e r :: tr, s2, o)
  end.

Definition trace {S A : Type} (h : Handler S) (s : S) (p : Prog A) : list event :=
  fst (fst (run h s p)).

Definition final {S A : Type} (h : Handler S) (s : S) (p : Prog A) : S :=
  snd (fst (run h s p)).

Definition result {S A : Type} (h : Handler S) (s : S) (p : Prog A) : outcome A :=
  snd (run h s p).

(** An environment that answers by the effect alone. *)
Definition Env : Type := forall e : effect, resp e.

Definition stateless (env : Env) : Handler unit := fun e s => (env e, s).

(** Every effect a program can perform, in any run, satisfies [P]. *)
Fixpoint performs_only {A : Type} (P : effect -> Prop) (p : Prog A) : Prop :=
  match p with
  | Ret _ | Panic _ => True
  | Vis e k => P e /\ forall r, performs_only P (k r)
  end.

(* ===================================================================== *)
(** * [filepath.Walk]                                                     *)
(* ===================================================================== *)

Definition WalkFunc : Type :=
  string -> option FileInfo -> option error -> Prog (option error).

(** [for _, x := range l { body }] for a body without [break]. *)
Fixpoint for_each {A : Type} (l : list A) (body : A -> Prog unit) : Prog unit :=
  match l with
  | [] => mret tt
  | x :: rest => body x ;; for_each rest body
  end.

(** [walk] of path/filepath: the function is called on the directory,
    then on its entries in order; an error from the function ends the walk,
    except [SkipDir], which only leaves the directory it is returned for. *)
Fixpoint walk (path : string) (t : FileTree) (walkFn : WalkFunc)
  : Prog (option error) :=
  match t with
  | TFile name => walkFn path (Some (mkFileInfo name false)) None
  | TBad name e => walkFn path None (Some e)
  | TDir name readErr entries =>
      err1 ← walkFn path (Some (mkFileInfo name true)) readErr;
      if notnil readErr || notnil err1 then mret err1
      else
        (fix walk_entries (l : list FileTree) : Prog (option error) :=
           match l with
           | [] => mret None
           | c :: rest =>
               let filename := FilePath.Join [path; tree_name c] in
               match c with
               | TBad _ e =>
                   err ← walkFn filename None (Some e);
                   if notnil err && negb (is_SkipDir err) then mret err
                   else walk_entries rest
               | _ =>
                   err ← walk filename c walkFn;
                   if notnil err && (negb (tree_is_dir c) || negb (is_SkipDir err))
                   then mret err
                   else walk_entries rest
               end
           end) entries
  end.

(** The loop of [walk] over the entries of a directory, by itself. *)
Definition walk_entries (path : string) (walkFn : WalkFunc)
  : list FileTree -> Prog (option error) :=
  fix walk_entries (l : list FileTree) : Prog (option error) :=
    match l with
    | [] => mret None
    | c :: rest =>
        let filename := FilePath.Join [path; tree_name c] in
        match c with
        | TBad _ e =>
            err ← walkFn filename None (Some e);
            if notnil err && negb (is_SkipDir err) then mret err
            else walk_entries rest
        | _ =>
            err ← walk filename c walkFn;
            if notnil err && (negb (tree_is_dir c) || negb (is_SkipDir err))
            then mret err
            else walk_entries rest
        end
    end.

(** [filepath.Walk(root, fn)] *)
Definition Walk (root : string) (fn : WalkFunc) : Prog (option error) :=
  t ← trigger (Lstat root);
  err ← match t with
        | TBad _ e => fn root None (Some e)
        | _ => walk root t fn
        end;
  if is_SkipDir err || is_SkipAll err then mret None else mret err.

(* ===================================================================== *)
(** * Package [media]: cover art                                          *)
(* ===================================================================== *)

Module Media.
Import GoStrings.

Definition coverNames : list string :=
  [ "cover.jpg"; "cover.jpeg"; "cover.png";
    "folder.jpg"; "folder.jpeg"; "folder.png" ].

Definition is_cover (e : FileInfo) : bool :=
  negb (IsDir e) && existsb (String.eqb (ToLower (Name e))) coverNames.

(** Find cover image: the first entry that is not a directory and whose
    lower-cased name is one of [coverNames]. *)
Definition FindCoverImage (dir : string) : Prog (string * option error) :=
  '(entries, _) ← trigger (ReadDir dir);
  match List.find is_cover entries with
  | Some e => mret (FilePath.Join [dir; Name e], None)
  | None => mret ("", Some (ErrNew ("no cover image found in " ++ dir)))
  end.

Definition guessMimeType (data : string) : string :=
  if HasPrefix data (of_bytes ["255"; "216"; "255"]%char) then "image/jpeg"
  else if HasPrefix data (of_bytes ["137"; "080"; "078"; "071"]%char)
       then "image/png"
       else "image/jpeg". (* fallback *)

(** [id3v2.PTFrontCover] *)
Definition PTFrontCover : Z := 3.

(** Embed into MP3 *)
Definition embedCoverMP3 (path cover : string) : Prog (option error) :=
  err ← trigger (ID3Open path);
  match err with
  | Some err => mret (Some (ErrWrap "mp3 open" err))
  | None =>
      defer (trigger (ID3Close path))
        (let mime := guessMimeType cover in
         let pic := mkPictureFrame mime PTFrontCover "Cover" cover in
         err ← trigger (ID3Save path pic);
         match err with
         | Some err => mret (Some (ErrWrap "mp3 save" err))
         | None => mret None
         end)
  end.

(** embedCoverFLAC writes cover bytes to a tempfile and uses metaflac to
    import it. *)
Definition embedCoverFLAC (path cover : string) : Prog (option error) :=
  err ← trigger (LookPath "metaflac");
  match err with
  | Some err => mret (Some (ErrWrap "metaflac not found in PATH" err))
  | None =>
      '(tmpPath, err) ← trigger (CreateTemp "" "cover-*.img");
      match err with
      | Some err => mret (Some (ErrWrap "creating temp file for cover" err))
      | None =>
          defer (trigger (TmpClose tmpPath);; trigger (Remove tmpPath);; mret tt)
            (err ← trigger (TmpWrite tmpPath cover);
             match err with
             | Some err => mret (Some (ErrWrap "writing cover to temp file" err))
             | None =>
                 err ← trigger (TmpSync tmpPath);
                 match err with
                 | Some err => mret (Some (ErrWrap "sync temp cover file" err))
                 | None =>
                     (* a failure to remove PICTURE blocks is only printed *)
                     _ ← trigger (Exec "metaflac"
                                    ["--remove"; "--block-type=PICTURE"; path]);
                     cmd ← trigger (Exec "metaflac"
                                      ["--import-picture-from=" ++ tmpPath; path]);
                     match RunErr cmd with
                     | Some _ =>
                         mret (Some (ErrNew "metaflac --import-picture-from failed"))
                     | None => mret None
                     end
                 end
             end)
      end
  end.

(** The function that [EmbedAlbumArtIntoFolder] walks the album with. *)
Definition embedWalkFn (coverData : string) : WalkFunc :=
  fun path info err =>
    match err with
    | Some err => mret (Some err)
    | None =>
        info ← deref info;
        if IsDir info then mret None
        else
          let lower := ToLower (Name info) in
          if HasSuffix lower ".mp3" then embedCoverMP3 path coverData
          else if HasSuffix lower ".flac" then embedCoverFLAC path coverData
          else mret None
    end.

(** EmbedAlbumArtIntoFolder scans one album folder and embeds cover art. *)
Definition EmbedAlbumArtIntoFolder (albumDir : string) : Prog (option error) :=
  '(coverFile, err) ← FindCoverImage albumDir;
  match err with
  | Some _ => mret None  (* no cover: skip the embed *)
  | None =>
      '(coverData, err) ← trigger (ReadFile coverFile);
      match err with
      | Some err => mret (Some (ErrWrap "failed to read cover image" err))
      | None => Walk albumDir (embedWalkFn coverData)
      end
  end.

End Media.

(* ===================================================================== *)
(** * The program                                                         *)
(* ===================================================================== *)

(** [LRCLibResponse] of lrc.go *)
Record LRCLibResponse : Type :=
  mkLRCLibResponse { SyncedLyrics : string; PlainLyrics : string }.

(** [MusicMetadata] of the importer *)
Record MusicMetadata : Type :=
  mkMusicMetadata { Artist : string; Album : string; Title : string }.

(** The anonymous struct that [fetchMusicBrainzInfo] decodes into. *)
Record MBArtistCredit : Type := mkMBArtistCredit { CreditName : string }.
Record MBRelease : Type :=
  mkMBRelease { ReleaseTitle : string; ArtistCredit : list MBArtistCredit }.
Record MBRecording : Type :=
  mkMBRecording { RecordingTitle : string; Releases : list MBRelease }.
Record MBData : Type := mkMBData { Recordings : list MBRecording }.

(** The decoders of Go's standard library that the program calls.  They
    are pure functions of their input; the program only depends on what
    they return. *)
Class Decoders : Type := {
  (** [strconv.Quote(s)], the verb [%q] of [fmt] *)
  Quote : string -> string;
  (** [strconv.ParseFloat(s, 64)] *)
  ParseFloat : string -> float * option error;
  (** [json.Unmarshal(body, &out)] for [out LRCLibResponse] *)
  UnmarshalLRCLib : string -> LRCLibResponse * option error;
  (** [json.Unmarshal(resp, &data)] for the MusicBrainz struct *)
  UnmarshalMB : string -> MBData * option error;
  (** [data.Format.Tags] after [json.Unmarshal(out, &data)] on ffprobe's
      output; [None] is the nil map *)
  UnmarshalTags : string -> option (gmap string string)
}.

Section Importer.
Context `{Decoders}.
Import GoStrings.

(** ** lrc.go *)

Definition durationArgs (path : string) : list string :=
  [ "-v"; "error"; "-show_entries"; "format=duration";
    "-of"; "default=noprint_wrappers=1:nokey=1"; path ].

Definition TrackDuration (path : string) : Prog (Z * option error) :=
  cmd ← trigger (Exec "ffprobe" (durationArgs path));
  match RunErr cmd with
  | Some err => mret (0%Z, Some (ErrWrap "ffprobe error" err))
  | None =>
      let raw := TrimSpace (Stdout cmd) in
      if is_empty raw
      then mret (0%Z, Some (ErrNew "empty duration output from ffprobe"))
      else
        let '(flt, err) := ParseFloat raw in
        match err with
        | Some err => mret (0%Z, Some (ErrWrap "parse duration" err))
        | None => mret (int_of_float (flt + 0.5), None) (* round to nearest second *)
        end
  end.

(** URL escape helper *)
Definition urlEncode (s : string) : string := ReplaceAll s " " "+".

(** Convert plaintext lyrics to a basic unsynced LRC (fallback) *)
Definition plainToLRC (plain : string) : string :=
  let lines := Split plain "010" in
  fold_left
    (fun out line => out ++ "[00:00.00] " ++ TrimSpace line ++ String "010" "")
    lines "".

Definition lrclibURL (artist title album : string) (duration : Z) : string :=
  "https://lrclib.net/api/get?artist_name=" ++ urlEncode artist ++
  "&track_name=" ++ urlEncode title ++
  "&album_name=" ++ urlEncode album ++
  "&duration=" ++ format_int duration.

(** fetchLRCLibLyrics calls the LRCLIB API and returns synced lyrics if
    available. *)
Definition fetchLRCLibLyrics (artist title album : string) (duration : Z)
  : Prog (string * option error) :=
  let url := lrclibURL artist title album duration in
  '(resp, err) ← trigger (HttpGet url);
  match err with
  | Some err => mret ("", Some (ErrWrap "lrclib fetch error" err))
  | None =>
      defer (trigger (BodyClose url))
        (if negb (StatusCode resp =? 200)%Z
         then mret ("", Some (ErrNew ("lrclib returned status " ++
                                       format_int (StatusCode resp))))
         else
           match BodyErr resp with
           | Some err => mret ("", Some (ErrWrap "reading lrclib response" err))
           | None =>
               let '(out, err) := UnmarshalLRCLib (Body resp) in
               match err with
               | Some err => mret ("", Some (ErrWrap "parsing lrclib json" err))
               | None =>
                   if negb (is_empty (SyncedLyrics out))
                   then mret (SyncedLyrics out, None)
                   else
                     (* If no syncedLyrics, fallback to plain *)
                     if negb (is_empty (PlainLyrics out))
                     then mret (plainToLRC (PlainLyrics out), None)
                     else mret ("", Some (ErrNew "no lyrics found"))
               end
           end)
  end.

(** ** The importer *)

(** Run a shell command with the process's own stdout and stderr. *)
Definition runCmd (name : string) (args : list string) : Prog (option error) :=
  cmd ← trigger (Exec name args);
  mret (RunErr cmd).

(** Use beets to fetch metadata and tag the file. *)
Definition tagWithBeets (path : string) : Prog (option error) :=
  runCmd "beet" ["import"; "-Cq"; path].

(** [fmt.Sprintf("recording:%q", ...)] *)
Definition mbQuery (filename : string) : string :=
  "recording:" ++
  Quote (TrimSuffix (FilePath.Base filename) (FilePath.Ext filename)).

Definition mbURL (filename : string) : string :=
  "https://musicbrainz.org/ws/2/recording/?query=" ++ mbQuery filename ++
  "&fmt=json".

(** Fallback: query MusicBrainz API manually if beets fails. *)
Definition fetchMusicBrainzInfo (filename : string)
  : Prog (option MusicMetadata * option error) :=
  let url := mbURL filename in
  cmd ← trigger (Exec "curl" ["-s"; url]);
  match RunErr cmd with
  | Some err => mret (None, Some err)
  | None =>
      let '(data, err) := UnmarshalMB (Stdout cmd) in
      match err with
      | Some err => mret (None, Some err)
      | None =>
          if (length (Recordings data) =? 0)%nat then
            mret (None, Some (ErrNew "no MusicBrainz match"))
          else
            r0 ← index (Recordings data) 0;
            if (length (Releases r0) =? 0)%nat then
              mret (None, Some (ErrNew "no MusicBrainz match"))
            else
              r ← index (Recordings data) 0;
              rel ← index (Releases r) 0;
              credit ← index (ArtistCredit rel) 0;
              let artist := CreditName credit in
              let album := ReleaseTitle rel in
              let title := RecordingTitle r in
              mret (Some (mkMusicMetadata artist album title), None)
      end
  end.

(** Apply ReplayGain using rsgain in "easy" mode. *)
Definition applyReplayGain (path : string) : Prog (option error) :=
  runCmd "rsgain" ["easy"; path].

(** The table of [strings.NewReplacer] in [sanitize]: every old string
    is one byte, so Go replaces byte by byte. *)
Definition sanitizeTable : list (ascii * string) :=
  [ ("/"%char, "_"); ("\"%char, "_"); (":"%char, "-"); ("?"%char, "");
    ("*"%char, ""); ("034"%char, ""); ("<"%char, ""); (">"%char, "");
    ("|"%char, "") ].

(** The first pair for [c] wins, as in [strings.NewReplacer]. *)
Fixpoint replacement (table : list (ascii * string)) (c : ascii) : option string :=
  match table with
  | [] => None
  | (old, new) :: rest =>
      if Ascii.eqb c old then Some new else replacement rest c
  end.

Fixpoint Replace (table : list (ascii * string)) (s : string) : string :=
  match s with
  | EmptyString => EmptyString
  | String c r =>
      match replacement table c with
      | Some new => new ++ Replace table r
      | None => String c (Replace table r)
      end
  end.

(** Remove filesystem-unsafe chars *)
Definition sanitize (s : string) : string := Replace sanitizeTable s.

(** Move file to {LIBRARY_DIR}/{artist}/{album}/filename *)
Definition moveToLibrary (libDir : string) (md : option MusicMetadata)
           (srcPath : string) : Prog (option error) :=
  m ← deref md;
  let targetDir := FilePath.Join [libDir; sanitize (Artist m); sanitize (Album m)] in
  err ← trigger (MkdirAll targetDir);
  match err with
  | Some err => mret (Some err)
  | None =>
      let dst := FilePath.Join [targetDir; FilePath.Base srcPath] in
      trigger (Rename srcPath dst)
  end.

Definition firstNonEmpty (vals : list string) : string :=
  match List.filter (fun v => negb (is_empty v)) vals with
  | v :: _ => v
  | [] => ""
  end.

(** [t[key]] for a Go map of strings: the empty string when absent. *)
Definition tag (t : gmap string string) (key : string) : string :=
  default "" (t !! key).

(** Read embedded tags using ffprobe (works for most formats). *)
Definition readTags (path : string) : Prog (option MusicMetadata * option error) :=
  cmd ← trigger (Exec "ffprobe" ["-v"; "quiet"; "-print_format"; "json";
                                 "-show_format"; path]);
  match RunErr cmd with
  | Some err => mret (None, Some err)
  | None =>
      match UnmarshalTags (Stdout cmd) with
      | None => mret (Some (mkMusicMetadata "" "" ""), None)
      | Some t =>
          mret (Some (mkMusicMetadata
                        (firstNonEmpty [tag t "artist"; tag t "ARTIST"])
                        (firstNonEmpty [tag t "album"; tag t "ALBUM"])
                        (firstNonEmpty [tag t "title"; tag t "TITLE"])), None)
      end
  end.

Definition is_audio_ext (ext : string) : bool :=
  String.eqb ext ".flac" || String.eqb ext ".mp3".

Definition getAudioFiles (dir : string) : Prog (list string * option error) :=
  '(entries, err) ← trigger (ReadDir dir);
  match err with
  | Some err => mret ([], Some err)
  | None =>
      mret (fold_left
              (fun tracks e =>
                 if IsDir e then tracks
                 else
                   let ext := ToLower (FilePath.Ext (Name e)) in
                   if is_audio_ext ext
                   then (tracks ++ [FilePath.Join [dir; Name e]])%list
                   else tracks)
              entries [], None)
  end.

Definition getAlbumMetadata (albumPath trackPath : string)
  : Prog (option MusicMetadata * option error) :=
  _ ← tagWithBeets albumPath; (* a failure is only printed *)
  '(md, err) ← readTags trackPath;
  let lookup : Prog (option MusicMetadata * option error) :=
    '(md, err) ← fetchMusicBrainzInfo trackPath;
    match err with
    | Some err => mret (None, Some (ErrWrap "metadata lookup failed" err))
    | None => mret (md, None)
    end in
  match err with
  | Some _ => lookup
  | None =>
      m ← deref md;
      if negb (is_empty (Artist m)) && negb (is_empty (Album m))
      then mret (md, None)
      else lookup
  end.

(** The body of the loop over the entries of the import directory; a
    [continue] is a return from the body. *)
Definition importEntry (importDir libraryDir : string) (e : FileInfo) : Prog unit :=
  if negb (IsDir e) then mret tt (* skip files *)
  else
    let albumPath := FilePath.Join [importDir; Name e] in
    '(tracks, err) ← getAudioFiles albumPath;
    if notnil err then mret tt
    else if (length tracks =? 0)%nat then mret tt
    else
      track0 ← index tracks 0;
      '(md, err) ← getAlbumMetadata albumPath track0;
      if notnil err then mret tt
      else
        err ← applyReplayGain albumPath;
        if notnil err then mret tt
        else
          err ← Media.EmbedAlbumArtIntoFolder albumPath;
          if notnil err then mret tt
          else
            for_each tracks
              (fun track => _ ← moveToLibrary libraryDir md track; mret tt);;
            '(coverImg, err) ← Media.FindCoverImage albumPath;
            (if notnil err then mret tt
             else _ ← moveToLibrary libraryDir md coverImg; mret tt);;
            _ ← trigger (Remove albumPath);
            mret tt.

Definition RunImporter : Prog unit :=
  importDir ← trigger (Getenv "IMPORT_DIR");
  libraryDir ← trigger (Getenv "LIBRARY_DIR");
  if is_empty importDir || is_empty libraryDir then mret tt
  else
    '(entries, err) ← trigger (ReadDir importDir);
    if notnil err then mret tt
    else for_each entries (importEntry importDir libraryDir).

(** ** lrc.go, continued *)

(** The function that [DownloadAlbumLyrics] walks the album with. *)
Definition lyricsWalkFn : WalkFunc :=
  fun path info err =>
    match err with
    | Some err => mret (Some err)
    | None =>
        info ← deref info;
        if IsDir info then mret None
        else
          let ext := ToLower (FilePath.Ext (Name info)) in
          if negb (String.eqb ext ".mp3") && negb (String.eqb ext ".flac")
          then mret None
          else
            (* Skip if LRC already exists next to the file *)
            let lrcPath := TrimSuffix path ext ++ ".lrc" in
            serr ← trigger (Stat lrcPath);
            if negb (notnil serr) then mret None
            else
              (* Read metadata *)
              '(md, err) ← readTags path;
              if notnil err then mret None
              else
                md ← deref md;
                if is_empty (Title md) || is_empty (Artist md) || is_empty (Album md)
                then mret None
                else
                  '(duration, _) ← TrackDuration path;
                  '(lyrics, err) ← fetchLRCLibLyrics (Artist md) (Title md)
                                                     (Album md) duration;
                  if notnil err then mret None
                  else
                    (* Write .lrc file *)
                    werr ← trigger (WriteFile lrcPath lyrics);
                    match werr with
                    | Some err =>
                        mret (Some (ErrWrap ("writing lrc file for " ++ path) err))
                    | None => mret None
                    end
    end.

(** DownloadAlbumLyrics downloads synced lyrics (LRC format) for each
    track in the album directory. *)
Definition DownloadAlbumLyrics (albumDir : string) : Prog (option error) :=
  Walk albumDir lyricsWalkFn.

End Importer.

(* ===================================================================== *)
(** * The web server: [handleHome], [handleRun] and their goroutines      *)
(* ===================================================================== *)

Module Server.

(** A goroutine of the server, by where it stands in its function.  The
    local variable [running] of a handler is part of its state. *)
Inductive goroutine : Type :=
| RunEnter (method : string)      (* handleRun called *)
| RunLocked                       (* after importerMu.Lock() *)
| RunRead (running : bool)        (* after running := importerRunning *)
| RunUnlocked (running : bool)    (* after importerMu.Unlock() *)
| RunSpawned                      (* after go RunImporter() *)
| HomeEnter                       (* handleHome called *)
| HomeLocked
| HomeRead (running : bool)
| HomeUnlocked (running : bool)
| Responded (status : Z) (running : bool) (* the handler has written its answer *)
| Importing                       (* inside RunImporter *)
| Imported.                       (* RunImporter has returned *)

(** The package-level variables and the goroutines. *)
Record config : Type := mkConfig {
  importerMu : bool;              (* true: the mutex is held *)
  importerRunning : bool;
  pool : list goroutine
}.

Definition StatusOK : Z := 200.
Definition StatusSeeOther : Z := 303.
Definition StatusMethodNotAllowed : Z := 405.
Definition MethodPost : string := "POST".

Definition set_pool (c : config) (i : nat) (g : goroutine) : config :=
  mkConfig (importerMu c) (importerRunning c) (<[i := g]> (pool c)).

(** One atomic step of goroutine [i]; [None] when it cannot move (it has
    ended, or it waits for the mutex). *)
Definition step_at (i : nat) (c : config) : option config :=
  g ← pool c !! i;
  match g with
  | RunEnter method =>
      if negb (String.eqb method MethodPost)
      then Some (set_pool c i (Responded StatusMethodNotAllowed false))
      else if importerMu c then None
      else Some (mkConfig true (importerRunning c) (<[i := RunLocked]> (pool c)))
  | RunLocked => Some (set_pool c i (RunRead (importerRunning c)))
  | RunRead running =>
      Some (mkConfig false (importerRunning c)
                     (<[i := RunUnlocked running]> (pool c)))
  | RunUnlocked running =>
      if running
      then Some (set_pool c i (Responded StatusSeeOther running))
      else (* Run importer in a background goroutine *)
        Some (mkConfig (importerMu c) (importerRunning c)
                       (<[i := RunSpawned]> (pool c) ++ [Importing]))
  | RunSpawned => Some (set_pool c i (Responded StatusSeeOther false))
  | HomeEnter =>
      if importerMu c then None
      else Some (mkConfig true (importerRunning c) (<[i := HomeLocked]> (pool c)))
  | HomeLocked => Some (set_pool c i (HomeRead (importerRunning c)))
  | HomeRead running =>
      Some (mkConfig false (importerRunning c)
                     (<[i := HomeUnlocked running]> (pool c)))
  | HomeUnlocked running => Some (set_pool c i (Responded StatusOK running))
  | Importing => Some (set_pool c i Imported)
  | Responded _ _ | Imported => None
  end.

(** The scheduler picks any goroutine that can move. *)
Inductive step : config -> config -> Prop :=
| step_goroutine (i : nat) (c c' : config) :
    step_at i c = Some c' -> step c c'.

Inductive steps : config -> config -> Prop :=
| steps_refl (c : config) : steps c c
| steps_step (c1 c2 c3 : config) : steps c1 c2 -> step c2 c3 -> steps c1 c3.

(** A schedule: the goroutine to move at each step. *)
Fixpoint schedule (order : list nat) (c : config) : option config :=
  match order with
  | [] => Some c
  | i :: rest => c' ← step_at i c; schedule rest c'
  end.

(** The server at start with the requests it has accepted. *)
Definition start (requests : list goroutine) : config :=
  mkConfig false false requests.

Definition is_importing (g : goroutine) : bool :=
  match g with Importing => true | _ => false end.

Definition is_import (g : goroutine) : bool :=
  match g with Importing | Imported => true | _ => false end.

(** The runs of the importer that are executing, and all that were
    ever started. *)
Definition active_runs (c : config) : nat :=
  length (List.filter is_importing (pool c)).

Definition started_runs (c : config) : nat :=
  length (List.filter is_import (pool c)).

Definition count (f : goroutine -> bool) (l : list goroutine) : nat :=
  length (List.filter f l).

(** What a goroutine has read from [importerRunning]. *)
Definition observed (g : goroutine) : bool :=
  match g with
  | RunRead r | RunUnlocked r | HomeRead r | HomeUnlocked r | Responded _ r => r
  | _ => false
  end.

(** A handler of a POST request that is past [go RunImporter()]. *)
Definition has_spawned (g : goroutine) : bool :=
  match g with
  | RunSpawned => true
  | Responded status r => (status =? StatusSeeOther)%Z && negb r
  | _ => false
  end.

Definition fresh (g : goroutine) : Prop :=
  match g with RunEnter _ | HomeEnter => True | _ => False end.

(** What holds of every configuration the server can reach: the flag
    is clear, nobody has read it set, and the runs started are as many
    as the handlers past [go RunImporter()]. *)
Record invariant (c : config) : Prop := {
  flag_clear : importerRunning c = false;
  none_observed : Forall (fun g => observed g = false) (pool c);
  runs_spawned : started_runs c = count has_spawned (pool c)
}.

End Server.

(* ===================================================================== *)
(** * The words of the specification, and the doubles used in examples    *)
(* ===================================================================== *)

Module Spec.
Import GoStrings.

(** The characters the sanitizer is to remove: slash, backslash, colon,
    question mark, asterisk, double quote, less-than, greater-than and
    vertical bar. *)
Definition unsafe : list ascii :=
  [ "/"; "\"; ":"; "?"; "*"; "034"; "<"; ">"; "|" ]%char.

(** The fixed replacement of each of them, as the specification lists
    them: an underscore, a hyphen, or nothing. *)
Definition fixed_replacement (c : ascii) : string :=
  if Ascii.eqb c "/" || Ascii.eqb c "\" then "_"
  else if Ascii.eqb c ":" then "-"
  else if existsb (Ascii.eqb c) unsafe then ""
  else String c "".

(** A line of plain lyrics wrapped as the specification words it: the
    zero timestamp, the line, a newline. *)
Definition wrap_line (line : string) : string :=
  "[00:00.00] " ++ line ++ String "010" "".

Definition wrap_lines (plain : string) : string :=
  String.concat "" (map wrap_line (Split plain "010")).

(** The sidecar path of a track as the specification defines it: the
    track path without its extension, then [.lrc]. *)
Definition sidecar (path : string) : string :=
  TrimSuffix path (FilePath.Ext path) ++ ".lrc".

End Spec.

(** ** Vocabulary of the statements *)

Section Vocabulary.
Import GoStrings.

(** What the walk function of the lyrics step sees for an audio track:
    a file whose lower-cased extension is [.mp3] or [.flac]. *)
Definition audio_track (info : FileInfo) : Prop :=
  IsDir info = false /\
  (ToLower (FilePath.Ext (Name info)) = ".mp3" \/
   ToLower (FilePath.Ext (Name info)) = ".flac").

(** The path at which the code looks for the sidecar of a track, and to
    which it writes it ([lrcPath] in [DownloadAlbumLyrics]). *)
Definition lrcPathOf (path : string) (info : FileInfo) : string :=
  TrimSuffix path (ToLower (FilePath.Ext (Name info))) ++ ".lrc".

(** The tag read gave an empty artist or an empty album. *)
Definition tags_empty (o : outcome (option MusicMetadata * option error)) : Prop :=
  match o with
  | Returned (Some md, None) => Artist md = "" \/ Album md = ""
  | _ => False
  end.

(** The tag read failed, or gave an empty artist or an empty album. *)
Definition tags_unusable (o : outcome (option MusicMetadata * option error)) : Prop :=
  match o with
  | Returned (_, Some _) => True
  | Returned (Some md, None) => Artist md = "" \/ Album md = ""
  | _ => False
  end.

(** The effects by which the lyrics step reaches the outside world for a
    track: the look for the sidecar, the query, the write of the
    sidecar. *)
Definition lyrics_effect (e : effect) : Prop :=
  match e with
  | Stat _ | HttpGet _ | BodyClose _ | WriteFile _ _ => True
  | _ => False
  end.

Definition no_lyrics (e : effect) : Prop := ~ lyrics_effect e.

(** The effects that embed a cover into a named track. *)
Definition embeds_into (path : string) (e : effect) : Prop :=
  match e with
  | ID3Open p | ID3Save p _ => p = path
  | Exec "metaflac" args => In path args
  | _ => False
  end.

(** What [urlEncode] does to one byte. *)
Definition plus_for_space (c : ascii) : ascii :=
  if Ascii.eqb c " " then "+"%char else c.

(** The entries that [getAudioFiles] keeps: not a directory, and the
    lower-cased extension is [.flac] or [.mp3]. *)
Definition is_audio_entry (e : FileInfo) : bool :=
  negb (IsDir e) && is_audio_ext (ToLower (FilePath.Ext (Name e))).

(** The tag read failed, or gave an empty title, artist or album: what
    the lyrics step needs is not all there. *)
Definition tags_incomplete (o : outcome (option MusicMetadata * option error)) : Prop :=
  match o with
  | Returned (_, Some _) => True
  | Returned (Some md, None) => Title md = "" \/ Artist md = "" \/ Album md = ""
  | _ => False
  end.

(** An effect that writes no file other than [path]. *)
Definition writes_only_to (path : string) (e : effect) : Prop :=
  match e with
  | WriteFile name _ => name = path
  | _ => True
  end.


(** A goroutine of the server between [importerMu.Lock()] and
    [importerMu.Unlock()]. *)
Definition in_critical (g : Server.goroutine) : bool :=
  match g with
  | Server.RunLocked | Server.RunRead _
  | Server.HomeLocked | Server.HomeRead _ => true
  | _ => false
  end.

(** [follows request g]: [g] is a state that the handler of [request] can
    be in.  A handler of [/run] leaves the method test for the lock only
    with POST and answers 303 then, 405 otherwise; a handler of [/]
    answers 200. *)
Definition follows (request g : Server.goroutine) : bool :=
  match request, g with
  | Server.RunEnter m, Server.RunEnter m' => String.eqb m m'
  | Server.RunEnter m, (Server.RunLocked | Server.RunRead _
                        | Server.RunUnlocked _ | Server.RunSpawned) =>
      String.eqb m Server.MethodPost
  | Server.RunEnter m, Server.Responded status _ =>
      if String.eqb m Server.MethodPost
      then (status =? Server.StatusSeeOther)%Z
      else (status =? Server.StatusMethodNotAllowed)%Z
  | Server.HomeEnter, (Server.HomeEnter | Server.HomeLocked
                       | Server.HomeRead _ | Server.HomeUnlocked _) => true
  | Server.HomeEnter, Server.Responded status _ => (status =? Server.StatusOK)%Z
  | _, _ => false
  end.

Definition is_post (g : Server.goroutine) : bool :=
  match g with
  | Server.RunEnter m => String.eqb m Server.MethodPost
  | _ => false
  end.


(** The status that the handler of [request] answers with, when it
    answers: 405 to a request to [/run] that is not a POST, 303 to a
    POST, 200 to a request to [/]. *)
Definition status_of (request : Server.goroutine) : Z :=
  match request with
  | Server.RunEnter m =>
      if String.eqb m Server.MethodPost
      then Server.StatusSeeOther else Server.StatusMethodNotAllowed
  | _ => Server.StatusOK
  end.

(** The pool is the handlers of [requests], each in a state its request
    allows, followed by the runs of the importer. *)
Definition served (requests : list Server.goroutine) (c : Server.config) : Prop :=
  exists handlers runs,
    Server.pool c = (handlers ++ runs)%list /\
    Forall2 (fun r g => follows r g = true) requests handlers /\
    Forall (fun g => Server.is_import g = true) runs.

(** What the lyrics step may do: look at the tree and at a sidecar, run
    ffprobe, ask the provider and close its answer, and write a file
    whose name ends in [.lrc]. *)
Definition sidecar_effect (e : effect) : Prop :=
  match e with
  | Lstat _ | Stat _ | HttpGet _ | BodyClose _ => True
  | Exec name _ => name = "ffprobe"
  | WriteFile name _ => HasSuffix name ".lrc" = true
  | _ => False
  end.

End Vocabulary.

Module Doubles.
Import GoStrings.

Definition newline : string := String "010" "".

(** A decoder double: it knows the documents of the examples, and
    rejects every other input. *)
#[local] Instance decoders : Decoders := {|
  Quote s := String "034" s ++ String "034" "";
  ParseFloat s :=
    if String.eqb s "123.4" then (123.4%float, None)
    else if String.eqb s "123.5" then (123.5%float, None)
    else if String.eqb s "0.0" then (0%float, None)
    else if String.eqb s "200.0" then (200%float, None)
    else if String.eqb s "-5.0" then ((-5)%float, None)
    else (0%float, Some (ErrExt "invalid syntax"));
  UnmarshalLRCLib s :=
    if String.eqb s "{plain}"
    then (mkLRCLibResponse "" ("Line1" ++ newline ++ "Line2"), None)
    else if String.eqb s "{plain-crlf}"
    then (mkLRCLibResponse "" ("Line1" ++ String "013" newline ++ "Line2"), None)
    else if String.eqb s "{synced}"
    then (mkLRCLibResponse "[00:01.00] Line1" "Line1", None)
    else if String.eqb s "{}"
    then (mkLRCLibResponse "" "", None)
    else (mkLRCLibResponse "" "", Some (ErrExt "unexpected end of JSON input"));
  UnmarshalMB s :=
    if String.eqb s "{foo-bar}"
    then (mkMBData [mkMBRecording "Song"
                      [mkMBRelease "Bar" [mkMBArtistCredit "Foo"]]], None)
    else if String.eqb s "{no-credit}"
    then (mkMBData [mkMBRecording "Song" [mkMBRelease "Bar" []]], None)
    else if String.eqb s "{no-release}"
    then (mkMBData [mkMBRecording "Song" []], None)
    else if String.eqb s "{}"
    then (mkMBData [], None)
    else (mkMBData [], Some (ErrExt "unexpected end of JSON input"));
  UnmarshalTags s :=
    if String.eqb s "{tagged}"
    then Some (<["artist" := "Foo Fighters"]>
                 (<["ALBUM" := "Bar"]> (<["title" := "Song"]> ∅)))
    else if String.eqb s "{no-artist}"
    then Some (<["album" := "Bar"]> (<["title" := "Song"]> ∅))
    else None
|}.

Definition failed : option error := Some (ErrExt "exit status 1").
Definition missing : option error := Some (ErrExt "no such file or directory").

(** The environment in which nothing exists and every tool fails. *)
Definition nothing : Env := fun e =>
  match e as e0 return resp e0 with
  | Getenv _ => ""
  | ReadDir _ => ([], missing)
  | Lstat root => TBad root (ErrExt "no such file or directory")
  | ReadFile _ => ("", missing)
  | Exec _ _ => mkCmdResult "" "" failed
  | HttpGet _ => (mkHttpResponse 0 "" None, Some (ErrExt "no route to host"))
  | CreateTemp _ _ => ("", missing)
  | BodyClose _ | TmpClose _ | ID3Close _ => tt
  | Stat _ | WriteFile _ _ | MkdirAll _ | Rename _ _ | Remove _
  | LookPath _ | TmpWrite _ _ | TmpSync _ | ID3Open _ | ID3Save _ _ => missing
  end.

Definition ok (out : string) : CmdResult := mkCmdResult out "" None.

(** An album directory [album] with a track [Song.MP3], its sidecar
    [Song.lrc] and a track [b.flac]; both tracks are fully tagged, the
    duration probe prints [duration], and the lyrics provider answers
    with [body]. *)
Definition lyrics_env (duration body : string) : Env := fun e =>
  match e as e0 return resp e0 with
  | Exec "ffprobe" ("-v" :: "error" :: _) => ok duration
  | Exec "ffprobe" ("-v" :: "quiet" :: _) => ok "{tagged}"
  | Lstat "album" =>
      TDir "album" None [TFile "Song.MP3"; TFile "Song.lrc"; TFile "b.flac"]
  | Stat "album/Song.lrc" => None
  | HttpGet _ => (mkHttpResponse 200 body None, None)
  | WriteFile _ _ => None
  | e0 => nothing e0
  end.

(** An import directory [/in] with one album [A] of two MP3 tracks and
    a cover; the tracks are tagged; the MP3 named by [bad] cannot be
    opened for tagging. *)
Definition album_env (bad : string) : Env := fun e =>
  match e as e0 return resp e0 with
  | Getenv "IMPORT_DIR" => "/in"
  | Getenv "LIBRARY_DIR" => "/lib"
  | ReadDir "/in" => ([mkFileInfo "A" true], None)
  | ReadDir "/in/A" =>
      ([mkFileInfo "a.mp3" false; mkFileInfo "b.mp3" false;
        mkFileInfo "cover.jpg" false], None)
  | Lstat "/in/A" =>
      TDir "A" None [TFile "a.mp3"; TFile "b.mp3"; TFile "cover.jpg"]
  | ReadFile "/in/A/cover.jpg" => ("JPEG", None)
  | Exec "beet" _ => ok ""
  | Exec "rsgain" _ => ok ""
  | Exec "ffprobe" ("-v" :: "quiet" :: _) => ok "{tagged}"
  | ID3Open path => if String.eqb path bad then failed else None
  | ID3Save _ _ => None
  | MkdirAll _ => None
  | Rename _ _ => None
  | Remove _ => None
  | e0 => nothing e0
  end.

(** A track for which ffprobe answers [tags] and MusicBrainz answers
    [mb]; the tagger fails. *)
Definition resolver_env (tags : CmdResult) (mb : string) : Env := fun e =>
  match e as e0 return resp e0 with
  | Exec "ffprobe" _ => tags
  | Exec "curl" _ => ok mb
  | e0 => nothing e0
  end.

(** The lyrics provider answers every request with [answer]. *)
Definition http_env (answer : HttpResponse) : Env := fun e =>
  match e as e0 return resp e0 with
  | HttpGet _ => (answer, None)
  | e0 => nothing e0
  end.

(** A machine with [metaflac]: temporary files can be made and written,
    the removal of the old picture blocks fails (there are none), the
    import of the picture succeeds. *)
Definition flac_env : Env := fun e =>
  match e as e0 return resp e0 with
  | LookPath _ => None
  | CreateTemp _ _ => ("/tmp/cover-1.img", None)
  | TmpWrite _ _ => None
  | TmpSync _ => None
  | Exec "metaflac" ("--remove" :: _) => mkCmdResult "" "" failed
  | Exec "metaflac" _ => ok ""
  | Remove _ => None
  | e0 => nothing e0
  end.

(** Every directory holds [entries]; ffprobe answers [tags]; every
    other tool fails and no file can be read. *)
Definition folder_env (entries : list FileInfo) (tags : CmdResult) : Env := fun e =>
  match e as e0 return resp e0 with
  | ReadDir _ => (entries, None)
  | Exec "ffprobe" _ => tags
  | e0 => nothing e0
  end.

(** The two variables are set, and nothing else is there. *)
Definition configured_env (importDir libraryDir : string) : Env := fun e =>
  match e as e0 return resp e0 with
  | Getenv "IMPORT_DIR" => importDir
  | Getenv "LIBRARY_DIR" => libraryDir
  | e0 => nothing e0
  end.

End Doubles.

(* ===================================================================== *)
(** * Strings                                                             *)
(* ===================================================================== *)

Section StringFacts.
Import GoStrings.

Lemma append_cons (c : ascii) (a b : string) :
  String c a ++ b = String c (a ++ b).
Proof. reflexivity. Qed.

Lemma append_assoc (a b c : string) : (a ++ b) ++ c = a ++ (b ++ c).
Proof.
  induction a as [|x a IH]; [reflexivity|].
  now rewrite !append_cons, IH.
Qed.

Lemma append_nil_r (a : string) : a ++ "" = a.
Proof.
  induction a as [|x a IH]; [reflexivity|].
  now rewrite append_cons, IH.
Qed.

Lemma bytes_app (a b : string) : bytes (a ++ b) = (bytes a ++ bytes b)%list.
Proof.
  induction a as [|c a IH]; [reflexivity|].
  rewrite append_cons; simpl. now rewrite IH.
Qed.

End StringFacts.

(* ===================================================================== *)
(** * The sanitizer                                                       *)
(* ===================================================================== *)

Section Sanitizer.
Import GoStrings.

Lemma Replace_cons (table : list (ascii * string)) (c : ascii) (s : string) :
  Replace table (String c s) =
  match replacement table c with
  | Some new => new ++ Replace table s
  | None => String c (Replace table s)
  end.
Proof. reflexivity. Qed.

Lemma Replace_app (table : list (ascii * string)) (a b : string) :
  Replace table (a ++ b) = Replace table a ++ Replace table b.
Proof.
  induction a as [|c a IH]; [reflexivity |].
  rewrite append_cons, !Replace_cons.
  destruct (replacement table c) as [new|]; rewrite IH.
  - now rewrite append_assoc.
  - now rewrite append_cons.
Qed.

(** The table of the code and the replacements the specification lists
    agree on every byte. *)
Lemma replacement_fixed (c : ascii) :
  match replacement sanitizeTable c with
  | Some new => In c Spec.unsafe /\ Spec.fixed_replacement c = new
                /\ (new = "_" \/ new = "-" \/ new = "")
  | None => ~ In c Spec.unsafe /\ Spec.fixed_replacement c = String c ""
  end.
Proof.
  unfold Spec.fixed_replacement, Spec.unsafe, sanitizeTable; simpl.
  repeat match goal with
         | |- context [Ascii.eqb c ?x] =>
             destruct (Ascii.eqb_spec c x) as [->|?]; simpl;
             [split; [tauto | split; [reflexivity | tauto]] |]
         end.
  split; [|reflexivity]. intros Hin.
  repeat (destruct Hin as [<-|Hin]; [congruence|]). exact Hin.
Qed.

Lemma sanitize_cons (c : ascii) (s : string) :
  sanitize (String c s) = Spec.fixed_replacement c ++ sanitize s.
Proof.
  unfold sanitize. rewrite Replace_cons.
  pose proof (replacement_fixed c) as Hc.
  destruct (replacement sanitizeTable c) as [new|].
  - destruct Hc as (_ & -> & _). reflexivity.
  - destruct Hc as (_ & ->). reflexivity.
Qed.

Lemma sanitize_fixed (s : string) :
  sanitize s = String.concat "" (map Spec.fixed_replacement (bytes s)).
Proof.
  induction s as [|c s IH]; [reflexivity|].
  rewrite sanitize_cons, IH; simpl.
  destruct (map Spec.fixed_replacement (bytes s)) eqn:E; simpl.
  - now rewrite append_nil_r.
  - reflexivity.
Qed.

Lemma fixed_replacement_safe (c : ascii) :
  sanitize (Spec.fixed_replacement c) = Spec.fixed_replacement c /\
  forall u, In u Spec.unsafe -> ~ In u (bytes (Spec.fixed_replacement c)).
Proof.
  pose proof (replacement_fixed c) as Hc.
  destruct (replacement sanitizeTable c) as [new|] eqn:E.
  - destruct Hc as (_ & -> & [-> | [-> | ->]]); (split; [reflexivity|]);
      intros u Hu Hin; simpl in Hin, Hu; intuition congruence.
  - destruct Hc as (Hc & ->). split.
    + unfold sanitize. now rewrite Replace_cons, E.
    + intros u Hu [<-|[]]. contradiction.
Qed.

Lemma sanitize_idempotent (s : string) : sanitize (sanitize s) = sanitize s.
Proof.
  induction s as [|c s IH]; [reflexivity|].
  rewrite sanitize_cons. unfold sanitize at 1. rewrite Replace_app.
  fold (sanitize (Spec.fixed_replacement c)). fold (sanitize (sanitize s)).
  now rewrite IH, (proj1 (fixed_replacement_safe c)).
Qed.

Lemma sanitize_safe (s : string) (u : ascii) :
  In u Spec.unsafe -> ~ In u (bytes (sanitize s)).
Proof.
  intros Hu. induction s as [|c s IH]; [intros []|].
  rewrite sanitize_cons, bytes_app, in_app_iff.
  intros [Hin|Hin]; [|contradiction].
  now apply (proj2 (fixed_replacement_safe c) u).
Qed.

(** C8. [sanitize] is a function defined on every string: its value is
    the input with every byte replaced by its fixed replacement (an
    underscore for slash and backslash, a hyphen for the colon, nothing
    for the other six unsafe characters, the byte itself otherwise); none
    of the nine unsafe characters is left in the result; and sanitizing
    a sanitized string changes nothing. *)
Theorem sanitize_total_fixed_idempotent (s : string) :
  sanitize s = String.concat "" (map Spec.fixed_replacement (bytes s)) /\
  (forall u, In u Spec.unsafe -> ~ In u (bytes (sanitize s))) /\
  sanitize (sanitize s) = sanitize s.
Proof.
  split; [|split].
  - apply sanitize_fixed.
  - intros u. apply sanitize_safe.
  - apply sanitize_idempotent.
Qed.

End Sanitizer.

(* ===================================================================== *)
(** * Runs of programs                                                    *)
(* ===================================================================== *)

Section Runs.
Context {S : Type} (h : Handler S).

Lemma run_bind {A B : Type} (s : S) (p : Prog A) (f : A -> Prog B) :
  run h s (bind p f) =
  match run h s p with
  | (tr1, s1, Returned a) =>
      let '(tr2, s2, o) := run h s1 (f a) in ((tr1 ++ tr2)%list, s2, o)
  | (tr1, s1, Panicked msg) => (tr1, s1, Panicked msg)
  end.
Proof.
  revert s. induction p as [a|msg|e k IH]; intros s; simpl.
  - destruct (run h s (f a)) as [[tr2 s2] o]. reflexivity.
  - reflexivity.
  - destruct (h e s) as [r s1]. rewrite IH.
    destruct (run h s1 (k r)) as [[tr1 s2] [a|msg]]; [|reflexivity].
    destruct (run h s2 (f a)) as [[tr2 s3] o]. reflexivity.
Qed.

Lemma run_mbind {A B : Type} (s : S) (p : Prog A) (f : A -> Prog B) :
  run h s (p ≫= f) =
  match run h s p with
  | (tr1, s1, Returned a) =>
      let '(tr2, s2, o) := run h s1 (f a) in ((tr1 ++ tr2)%list, s2, o)
  | (tr1, s1, Panicked msg) => (tr1, s1, Panicked msg)
  end.
Proof. apply run_bind. Qed.

Lemma run_defer {A : Type} (s : S) (cleanup : Prog unit) (body : Prog A) :
  run h s (defer cleanup body) =
  let '(tr1, s1, o) := run h s body in
  match run h s1 cleanup with
  | (tr2, s2, Returned _) => ((tr1 ++ tr2)%list, s2, o)
  | (tr2, s2, Panicked msg) => ((tr1 ++ tr2)%list, s2, Panicked msg)
  end.
Proof.
  revert s. induction body as [a|msg|e k IH]; intros s; simpl.
  - rewrite run_bind.
    destruct (run h s cleanup) as [[tr2 s2] [[]|m]]; simpl;
      now rewrite ?app_nil_r.
  - rewrite run_bind.
    destruct (run h s cleanup) as [[tr2 s2] [[]|m]]; simpl;
      now rewrite ?app_nil_r.
  - destruct (h e s) as [r s1]. rewrite IH.
    destruct (run h s1 (k r)) as [[tr1 s2] o].
    destruct (run h s2 cleanup) as [[tr2 s3] [[]|m]]; reflexivity.
Qed.

Lemma run_triple {A : Type} (s : S) (p : Prog A) :
  run h s p = (trace h s p, final h s p, result h s p).
Proof. unfold trace, final, result. now destruct (run h s p) as [[? ?] ?]. Qed.
End Runs.


(* ===================================================================== *)
(** * The lyrics provider and the duration probe                          *)
(* ===================================================================== *)

Section Lyrics.
Context `{Decoders}.
Import GoStrings.

Lemma plainToLRC_lines (plain : string) :
  plainToLRC plain =
  String.concat "" (map (fun line => Spec.wrap_line (TrimSpace line)) (Split plain "010")).
Proof.
  unfold plainToLRC.
  assert (G : forall lines acc,
    fold_left (fun out line => out ++ "[00:00.00] " ++ TrimSpace line ++ String "010" "") lines acc
    = acc ++ String.concat "" (map (fun line => Spec.wrap_line (TrimSpace line)) lines)).
  { induction lines as [|l lines IH]; intros acc.
    - simpl. now rewrite append_nil_r.
    - cbn [fold_left map]. rewrite IH, append_assoc. f_equal.
      destruct lines as [|l' lines]; [cbn; now rewrite append_nil_r | reflexivity]. }
  now rewrite G.
Qed.

(** C7 (amended). For every answer of the lyrics provider with status
    200 whose body decodes: a non-empty synced-lyrics field is returned
    as it is; otherwise a non-empty plain-lyrics field is split at the
    newlines and every line, with its leading and trailing white space
    removed, is written after the prefix [[00:00.00] ] and followed by a
    newline; otherwise the fetch fails with the no-lyrics-found error. *)
Theorem fetchLRCLibLyrics_synced_else_trimmed_plain
    {S : Type} (h : Handler S) (s s1 : S)
    (artist title album : string) (duration : Z)
    (resp : HttpResponse) (out : LRCLibResponse) :
  h (HttpGet (lrclibURL artist title album duration)) s = ((resp, None), s1) ->
  StatusCode resp = 200%Z -> BodyErr resp = None ->
  UnmarshalLRCLib (Body resp) = (out, None) ->
  result h s (fetchLRCLibLyrics artist title album duration) =
  Returned
    (if negb (is_empty (SyncedLyrics out)) then (SyncedLyrics out, None)
     else if negb (is_empty (PlainLyrics out)) then
       (String.concat ""
          (map (fun line => Spec.wrap_line (TrimSpace line))
               (Split (PlainLyrics out) "010")), None)
     else ("", Some (ErrNew "no lyrics found"))).
Proof.
  intros Hget Hstatus Hbody Hjson.
  unfold result, fetchLRCLibLyrics. cbn. rewrite Hget. cbn.
  rewrite Hstatus, Hbody, Hjson. cbn.
  rewrite run_defer.
  destruct (negb (is_empty (SyncedLyrics out)));
    [|destruct (negb (is_empty (PlainLyrics out)))]; cbn;
    destruct (h (BodyClose _) s1) as [[] s2]; cbn; try reflexivity.
  now rewrite plainToLRC_lines.
Qed.

(** C5 (amended). The duration probe returns [int(d + 0.5)] for the
    duration [d] that ffprobe prints, the fraction discarded: 123.4
    gives 123, 123.5 gives 124, 0.0 gives 0.  It returns an error, with
    the value 0, when ffprobe fails, prints nothing, or prints what does
    not parse.  A negative duration that parses is not an error: the
    result is [int(d + 0.5)] as well, -4 for -5.0. *)
Theorem TrackDuration_cases {S : Type} (h : Handler S) (s s1 : S)
    (path : string) (cmd : CmdResult) :
  h (Exec "ffprobe" (durationArgs path)) s = (cmd, s1) ->
  let raw := TrimSpace (Stdout cmd) in
  let value := result h s (TrackDuration path) in
  (forall e, RunErr cmd = Some e ->
             value = Returned (0%Z, Some (ErrWrap "ffprobe error" e))) /\
  (RunErr cmd = None -> raw = "" ->
   value = Returned (0%Z, Some (ErrNew "empty duration output from ffprobe"))) /\
  (forall f e, RunErr cmd = None -> raw <> "" -> ParseFloat raw = (f, Some e) ->
               value = Returned (0%Z, Some (ErrWrap "parse duration" e))) /\
  (forall f, RunErr cmd = None -> raw <> "" -> ParseFloat raw = (f, None) ->
             value = Returned (int_of_float (f + 0.5), None)) /\
  int_of_float (123.4 + 0.5) = 123%Z /\
  int_of_float (123.5 + 0.5) = 124%Z /\
  int_of_float (0 + 0.5) = 0%Z /\
  int_of_float (-5 + 0.5) = (-4)%Z.
Proof.
  intros Hcmd raw value. subst value. unfold result, TrackDuration. cbn.
  rewrite Hcmd. fold raw.
  repeat split; try reflexivity.
  - intros e ->. reflexivity.
  - intros -> ->. reflexivity.
  - intros f e -> Hraw ->. destruct (String.eqb_spec raw ""); [contradiction|].
    unfold is_empty. destruct (String.eqb_spec raw ""); [contradiction|]. reflexivity.
  - intros f -> Hraw ->. unfold is_empty.
    destruct (String.eqb_spec raw ""); [contradiction|]. reflexivity.
Qed.
End Lyrics.

(** The provider answers with plain lyrics only, [Line1] and [Line2]: the
    sidecar content is the two lines, each after the zero timestamp. *)
Lemma fetchLRCLibLyrics_plain_witness :
  stateless (Doubles.lyrics_env "200.0" "{plain}")
    (HttpGet (lrclibURL "Foo Fighters" "Song" "Bar" 200)) tt
  = ((mkHttpResponse 200 "{plain}" None, None), tt) /\
  result (stateless (Doubles.lyrics_env "200.0" "{plain}")) tt
    (@fetchLRCLibLyrics Doubles.decoders "Foo Fighters" "Song" "Bar" 200) =
  Returned ("[00:00.00] Line1" ++ Doubles.newline ++
            "[00:00.00] Line2" ++ Doubles.newline, None).
Proof.
  split; [reflexivity|].
  rewrite (@fetchLRCLibLyrics_synced_else_trimmed_plain Doubles.decoders unit
             (stateless (Doubles.lyrics_env "200.0" "{plain}")) tt tt
             "Foo Fighters" "Song" "Bar" 200
             (mkHttpResponse 200 "{plain}" None)
             (mkLRCLibResponse "" ("Line1" ++ Doubles.newline ++ "Line2")));
    reflexivity.
Defined.

(** Plain lyrics with CR LF line ends: the carriage return of the first
    line is not in the sidecar content, so the line is not wrapped as it
    is. *)
Lemma fetchLRCLibLyrics_trims_lines :
  let plain := "Line1" ++ String "013" Doubles.newline ++ "Line2" in
  @UnmarshalLRCLib Doubles.decoders "{plain-crlf}" = (mkLRCLibResponse "" plain, None) /\
  result (stateless (Doubles.lyrics_env "200.0" "{plain-crlf}")) tt
    (@fetchLRCLibLyrics Doubles.decoders "Foo Fighters" "Song" "Bar" 200) =
  Returned ("[00:00.00] Line1" ++ Doubles.newline ++
            "[00:00.00] Line2" ++ Doubles.newline, None) /\
  Spec.wrap_lines plain <>
  "[00:00.00] Line1" ++ Doubles.newline ++ "[00:00.00] Line2" ++ Doubles.newline.
Proof. repeat split; [vm_compute; discriminate]. Qed.

(** ffprobe prints 123.5: the probe returns 124. *)
Lemma TrackDuration_witness :
  stateless (Doubles.lyrics_env "123.5" "")
    (Exec "ffprobe" (durationArgs "album/b.flac")) tt
  = (Doubles.ok "123.5", tt) /\
  result (stateless (Doubles.lyrics_env "123.5" "")) tt
    (@TrackDuration Doubles.decoders "album/b.flac") = Returned (124%Z, None).
Proof.
  split; [reflexivity|].
  destruct (@TrackDuration_cases Doubles.decoders unit
              (stateless (Doubles.lyrics_env "123.5" "")) tt tt
              "album/b.flac" (Doubles.ok "123.5") eq_refl)
    as (_ & _ & _ & Hparsed & _).
  rewrite (Hparsed 123.5%float); [reflexivity | reflexivity | discriminate | reflexivity].
Defined.

(** ffprobe prints -5.0: the probe returns -4 and no error. *)
Lemma TrackDuration_negative_no_error :
  result (stateless (Doubles.lyrics_env "-5.0" "")) tt
    (@TrackDuration Doubles.decoders "album/b.flac") = Returned ((-4)%Z, None).
Proof. reflexivity. Qed.

(* ===================================================================== *)
(** * The lyrics step for one track                                       *)
(* ===================================================================== *)

Section Fetcher.
Context `{Decoders} {S : Type} (h : Handler S).
Import GoStrings.
Local Arguments readTags : simpl never.
Local Arguments TrackDuration : simpl never.
Local Arguments fetchLRCLibLyrics : simpl never.

Lemma audio_track_ext (info : FileInfo) :
  audio_track info ->
  IsDir info = false /\
  negb (String.eqb (ToLower (FilePath.Ext (Name info))) ".mp3") &&
  negb (String.eqb (ToLower (FilePath.Ext (Name info))) ".flac") = false.
Proof. intros [Hd [-> | ->]]; split; auto. Qed.

(** The sidecar exists at the path where the code looks for it: the
    visit of the track is that one look, and it returns nil. *)
Lemma lyricsWalkFn_skips_existing (s s1 : S) (path : string) (info : FileInfo) :
  audio_track info ->
  h (Stat (lrcPathOf path info)) s = (None, s1) ->
  run h s (lyricsWalkFn path (Some info) None) =
  ([Ev (Stat (lrcPathOf path info)) None], s1, Returned None).
Proof.
  intros Ha Hstat. apply audio_track_ext in Ha as [Hd Hext].
  unfold lyricsWalkFn. cbn. rewrite Hd, Hext. cbn.
  unfold lrcPathOf in Hstat. rewrite Hstat. reflexivity.
Qed.

(** A fetch begins with the query and always returns. *)
Lemma fetchLRCLibLyrics_shape (s : S) (artist title album : string) (duration : Z) :
  exists answer rest v,
    trace h s (fetchLRCLibLyrics artist title album duration) =
    Ev (HttpGet (lrclibURL artist title album duration)) answer :: rest /\
    result h s (fetchLRCLibLyrics artist title album duration) = Returned v.
Proof.
  unfold trace, result, fetchLRCLibLyrics. cbn.
  destruct (h (HttpGet _) s) as [[resp [err|]] s1]; cbn.
  - eexists _, _, _; split; reflexivity.
  - rewrite run_defer.
    destruct (negb (StatusCode resp =? 200)%Z);
      [|destruct (BodyErr resp);
        [|destruct (UnmarshalLRCLib (Body resp)) as [out [e|]];
          [|destruct (negb (is_empty (SyncedLyrics out)));
            [|destruct (negb (is_empty (PlainLyrics out)))]]]];
      cbn; destruct (h (BodyClose _) s1) as [[] s2];
      eexists _, _, _; split; reflexivity.
Qed.

(** C10. For every audio track without a sidecar whose tags are
    complete: when the duration probe fails, the value it returns is 0,
    and the visit of the track goes on: the next thing it does is the
    query to the lyrics provider, with duration 0.  The error of the
    probe is not returned: the visit returns nil, or the error of
    writing the sidecar. *)
Theorem duration_error_discarded (s s1 : S) (path : string) (info : FileInfo)
    (serr : error) (md : MusicMetadata) (d : Z) (derr : error) :
  audio_track info ->
  let s2 := final h s1 (readTags path) in
  h (Stat (lrcPathOf path info)) s = (Some serr, s1) ->
  result h s1 (readTags path) = Returned (Some md, None) ->
  Title md <> "" -> Artist md <> "" -> Album md <> "" ->
  result h s2 (TrackDuration path) = Returned (d, Some derr) ->
  d = 0%Z /\
  (exists answer rest,
     trace h s (lyricsWalkFn path (Some info) None) =
     (Ev (Stat (lrcPathOf path info)) (Some serr)
        :: trace h s1 (readTags path) ++ trace h s2 (TrackDuration path)
        ++ Ev (HttpGet (lrclibURL (Artist md) (Title md) (Album md) 0)) answer
        :: rest)%list) /\
  (result h s (lyricsWalkFn path (Some info) None) = Returned None \/
   exists werr,
     result h s (lyricsWalkFn path (Some info) None) =
     Returned (Some (ErrWrap ("writing lrc file for " ++ path) werr))).
Proof.
  intros Ha s2 Hstat Htags Ht Har Hal Hdur.
  apply audio_track_ext in Ha as [Hd Hext].
  assert (d = 0%Z) as ->.
  { revert Hdur. unfold result, TrackDuration. cbn.
    destruct (h (Exec "ffprobe" (durationArgs path)) s2) as [cmd s'].
    destruct (RunErr cmd); cbn; [congruence|].
    destruct (is_empty _); cbn; [congruence|].
    destruct (ParseFloat _) as [f [e|]]; cbn; congruence. }
  split; [reflexivity|].
  unfold trace, result, lyricsWalkFn. cbn. rewrite Hd, Hext. cbn.
  unfold lrcPathOf in *. rewrite Hstat.
  cbn. rewrite run_mbind, (run_triple h s1 (readTags path)), Htags. fold s2.
  cbn. destruct (is_empty (Title md)) eqn:E1; [apply String.eqb_eq in E1; contradiction|].
  destruct (is_empty (Artist md)) eqn:E2; [apply String.eqb_eq in E2; contradiction|].
  destruct (is_empty (Album md)) eqn:E3; [apply String.eqb_eq in E3; contradiction|].
  cbn. rewrite run_mbind, (run_triple h s2 (TrackDuration path)), Hdur.
  cbn. rewrite run_mbind.
  destruct (fetchLRCLibLyrics_shape (final h s2 (TrackDuration path))
              (Artist md) (Title md) (Album md) 0)
    as (answer & rest & [lyrics err] & Htr & Hres).
  rewrite (run_triple h _ (fetchLRCLibLyrics _ _ _ _)), Htr, Hres.
  destruct err as [err|]; cbn.
  - split; [|left; reflexivity].
    exists answer, rest. now rewrite ?app_nil_r.
  - destruct (h (WriteFile _ _) _) as [[werr|] s5]; cbn.
    + split; [|right; eexists; reflexivity].
      eexists answer, _. cbn. reflexivity.
    + split; [|left; reflexivity].
      eexists answer, _. cbn. reflexivity.
Qed.
End Fetcher.

(* ===================================================================== *)
(** * The metadata resolver                                               *)
(* ===================================================================== *)

Section Resolver.
Context `{Decoders} {S : Type} (h : Handler S).
Import GoStrings.
Local Arguments readTags : simpl never.
Local Arguments fetchMusicBrainzInfo : simpl never.
Local Arguments tagWithBeets : simpl never.

Lemma tagWithBeets_returns (s : S) (path : string) :
  exists err, result h s (tagWithBeets path) = Returned err.
Proof.
  unfold result, tagWithBeets, runCmd. cbn.
  destruct (h (Exec _ _) s) as [cmd s1]. eexists; reflexivity.
Qed.

Lemma readTags_returns (s : S) (path : string) :
  (exists err, result h s (readTags path) = Returned (None, Some err)) \/
  (exists md, result h s (readTags path) = Returned (Some md, None)).
Proof.
  unfold result, readTags. cbn.
  destruct (h (Exec _ _) s) as [cmd s1].
  destruct (RunErr cmd); cbn; [left; eexists; reflexivity|].
  destruct (UnmarshalTags _); right; eexists; reflexivity.
Qed.

(** The resolver runs the tagger, reads the tags, and either returns
    them or hands over to the lookup. *)
Lemma getAlbumMetadata_result (s0 : S) (albumPath trackPath : string) :
  let s1 := final h s0 (tagWithBeets albumPath) in
  let s2 := final h s1 (readTags trackPath) in
  let tags := result h s1 (readTags trackPath) in
  let lookup := result h s2 (fetchMusicBrainzInfo trackPath) in
  result h s0 (getAlbumMetadata albumPath trackPath) =
  match tags with
  | Returned (Some md, None) =>
      if negb (is_empty (Artist md)) && negb (is_empty (Album md))
      then Returned (Some md, None)
      else match lookup with
           | Returned (_, Some err) =>
               Returned (None, Some (ErrWrap "metadata lookup failed" err))
           | Returned (md', None) => Returned (md', None)
           | Panicked msg => Panicked msg
           end
  | _ => match lookup with
         | Returned (_, Some err) =>
             Returned (None, Some (ErrWrap "metadata lookup failed" err))
         | Returned (md', None) => Returned (md', None)
         | Panicked msg => Panicked msg
         end
  end.
Proof.
  intros s1 s2 tags lookup. subst tags lookup.
  unfold result at 1. unfold getAlbumMetadata.
  rewrite run_mbind, (run_triple h s0 (tagWithBeets albumPath)).
  destruct (tagWithBeets_returns s0 albumPath) as [berr ->]. fold s1.
  rewrite run_mbind, (run_triple h s1 (readTags trackPath)). fold s2.
  destruct (readTags_returns s1 trackPath) as [[err ->] | [md ->]]; cbn.
  - rewrite run_mbind, (run_triple h s2 (fetchMusicBrainzInfo trackPath)).
    destruct (result h s2 (fetchMusicBrainzInfo trackPath)) as [[md' [e|]]|msg];
      reflexivity.
  - destruct (negb (is_empty (Artist md)) && negb (is_empty (Album md)));
      [reflexivity|].
    rewrite run_mbind, (run_triple h s2 (fetchMusicBrainzInfo trackPath)).
    destruct (result h s2 (fetchMusicBrainzInfo trackPath)) as [[md' [e|]]|msg];
      reflexivity.
Qed.

Lemma not_empty_true (x : string) : negb (is_empty x) = true <-> x <> "".
Proof.
  unfold is_empty. destruct (String.eqb_spec x ""); simpl; split; congruence.
Qed.

Lemma fetchMusicBrainzInfo_result (s s3 : S) (filename : string)
    (cmd : CmdResult) (data : MBData) :
  h (Exec "curl" ["-s"; mbURL filename]) s = (cmd, s3) ->
  RunErr cmd = None -> UnmarshalMB (Stdout cmd) = (data, None) ->
  result h s (fetchMusicBrainzInfo filename) =
  match Recordings data with
  | [] => Returned (None, Some (ErrNew "no MusicBrainz match"))
  | r :: _ =>
      match Releases r with
      | [] => Returned (None, Some (ErrNew "no MusicBrainz match"))
      | rel :: _ =>
          match ArtistCredit rel with
          | [] => Panicked "index out of range"
          | credit :: _ =>
              Returned (Some (mkMusicMetadata (CreditName credit)
                                (ReleaseTitle rel) (RecordingTitle r)), None)
          end
      end
  end.
Proof.
  intros Hcurl Herr Hjson.
  unfold result, fetchMusicBrainzInfo. cbn. rewrite Hcurl. cbn.
  rewrite Herr, Hjson.
  destruct (Recordings data) as [|r rest]; [reflexivity|]. cbn.
  destruct (Releases r) as [|rel rels]; [reflexivity|]. cbn.
  destruct (ArtistCredit rel) as [|credit credits]; reflexivity.
Qed.

(** C3 (amended). The resolver returns either the metadata of the tag
    read that follows the tagging attempt, whole, and then neither
    artist nor album is empty; or the result of the MusicBrainz lookup,
    whole, and then the tag read failed or gave an empty artist or an
    empty album.  It never takes fields from both.  When the lookup is
    made and MusicBrainz returns no recording, or a first recording
    without release, the resolution fails. *)
Theorem getAlbumMetadata_sources (s0 : S) (albumPath trackPath : string) :
  let s1 := final h s0 (tagWithBeets albumPath) in
  let s2 := final h s1 (readTags trackPath) in
  let tags := result h s1 (readTags trackPath) in
  let lookup := result h s2 (fetchMusicBrainzInfo trackPath) in
  let resolved := result h s0 (getAlbumMetadata albumPath trackPath) in
  (forall md, resolved = Returned (Some md, None) ->
     (tags = Returned (Some md, None) /\ Artist md <> "" /\ Album md <> "") \/
     (tags_unusable tags /\ lookup = Returned (Some md, None))) /\
  (forall cmd s3 data,
     tags_unusable tags ->
     h (Exec "curl" ["-s"; mbURL trackPath]) s2 = (cmd, s3) ->
     RunErr cmd = None -> UnmarshalMB (Stdout cmd) = (data, None) ->
     (Recordings data = [] \/
      exists r rest, Recordings data = r :: rest /\ Releases r = []) ->
     resolved = Returned (None, Some (ErrWrap "metadata lookup failed"
                                        (ErrNew "no MusicBrainz match")))).
Proof.
  intros s1 s2 tags lookup resolved.
  pose proof (getAlbumMetadata_result s0 albumPath trackPath) as Hres.
  cbn zeta in Hres. fold s1 s2 tags lookup resolved in Hres.
  assert (Htags : (exists err, tags = Returned (None, Some err)) \/
                  (exists md, tags = Returned (Some md, None)))
    by apply readTags_returns.
  split.
  - intros md Hmd. rewrite Hres in Hmd. clear Hres.
    destruct Htags as [[terr ->] | [tmd ->]].
    + right. split; [exact I|].
      destruct lookup as [[md' [e|]]|m]; congruence.
    + destruct (negb (is_empty (Artist tmd))) eqn:Ea;
        [destruct (negb (is_empty (Album tmd))) eqn:Eb|]; cbn in Hmd.
      * left. apply not_empty_true in Ea, Eb.
        injection Hmd as ->. auto.
      * right. split.
        { right. unfold is_empty in Eb.
          destruct (String.eqb_spec (Album tmd) ""); [auto|discriminate]. }
        destruct lookup as [[md' [e|]]|m]; congruence.
      * right. split.
        { left. unfold is_empty in Ea.
          destruct (String.eqb_spec (Artist tmd) ""); [auto|discriminate]. }
        destruct lookup as [[md' [e|]]|m]; congruence.
  - intros cmd s3 data Hun Hcurl Herr Hjson Hnone.
    assert (Hlook : lookup = Returned (None, Some (ErrNew "no MusicBrainz match"))).
    { subst lookup.
      rewrite (fetchMusicBrainzInfo_result s2 s3 trackPath cmd data Hcurl Herr Hjson).
      destruct Hnone as [-> | (r & rest & -> & ->)]; reflexivity. }
    rewrite Hres, Hlook.
    destruct Htags as [[terr Ht] | [tmd Ht]]; rewrite Ht in *; [reflexivity|].
    cbn in Hun.
    destruct Hun as [Hu | Hu]; rewrite Hu; cbn; rewrite ?andb_false_r; reflexivity.
Qed.

(** C9. When the first release of the first recording that MusicBrainz
    returns has an empty artist-credit list, the lookup neither returns
    a value nor an error: indexing the first credit panics, and the
    panic leaves the resolver too. *)
Theorem empty_artist_credit_panics (s0 s3 : S) (albumPath trackPath : string)
    (cmd : CmdResult) (data : MBData)
    (r : MBRecording) (rest : list MBRecording)
    (rel : MBRelease) (rels : list MBRelease) :
  let s1 := final h s0 (tagWithBeets albumPath) in
  let s2 := final h s1 (readTags trackPath) in
  tags_unusable (result h s1 (readTags trackPath)) ->
  h (Exec "curl" ["-s"; mbURL trackPath]) s2 = (cmd, s3) ->
  RunErr cmd = None -> UnmarshalMB (Stdout cmd) = (data, None) ->
  Recordings data = r :: rest -> Releases r = rel :: rels ->
  ArtistCredit rel = [] ->
  result h s2 (fetchMusicBrainzInfo trackPath) = Panicked "index out of range" /\
  result h s0 (getAlbumMetadata albumPath trackPath) = Panicked "index out of range".
Proof.
  intros s1 s2 Hun Hcurl Herr Hjson Hrec Hrel Hcredit.
  assert (Hlook : result h s2 (fetchMusicBrainzInfo trackPath)
                  = Panicked "index out of range").
  { rewrite (fetchMusicBrainzInfo_result s2 s3 trackPath cmd data Hcurl Herr Hjson).
    now rewrite Hrec, Hrel, Hcredit. }
  split; [exact Hlook|].
  pose proof (getAlbumMetadata_result s0 albumPath trackPath) as Hres.
  cbn zeta in Hres. fold s1 s2 in Hres. rewrite Hres, Hlook.
  destruct (readTags_returns s1 trackPath) as [[terr Ht] | [tmd Ht]];
    rewrite Ht in *; [reflexivity|].
  cbn in Hun.
  destruct Hun as [Hu | Hu]; rewrite Hu; cbn; rewrite ?andb_false_r; reflexivity.
Qed.
End Resolver.

(** A track [b.flac] with complete tags and no sidecar; ffprobe prints
    [abc] for the duration: the provider is asked with [duration=0]. *)
Lemma duration_error_discarded_witness :
  let h := stateless (Doubles.lyrics_env "abc" "{plain}") in
  let info := mkFileInfo "b.flac" false in
  let md := mkMusicMetadata "Foo Fighters" "Bar" "Song" in
  audio_track info /\
  h (Stat (lrcPathOf "album/b.flac" info)) tt = (Doubles.missing, tt) /\
  result h tt (@readTags Doubles.decoders "album/b.flac") = Returned (Some md, None) /\
  result h tt (@TrackDuration Doubles.decoders "album/b.flac")
  = Returned (0%Z, Some (ErrWrap "parse duration" (ErrExt "invalid syntax"))) /\
  In (HttpGet "https://lrclib.net/api/get?artist_name=Foo+Fighters&track_name=Song&album_name=Bar&duration=0")
     (calls (trace h tt (@lyricsWalkFn Doubles.decoders "album/b.flac" (Some info) None))).
Proof.
  intros h info md.
  assert (Ha : audio_track info) by (split; [reflexivity | right; reflexivity]).
  repeat (split; [first [exact Ha | reflexivity]|]).
  destruct (@duration_error_discarded Doubles.decoders unit h tt tt
              "album/b.flac" info (ErrExt "no such file or directory") md 0
              (ErrWrap "parse duration" (ErrExt "invalid syntax"))
              Ha eq_refl eq_refl)
    as (_ & (answer & rest & Htrace) & _); try discriminate; try reflexivity.
  rewrite Htrace. unfold calls. rewrite map_cons, map_app, map_app, map_cons.
  right. apply in_or_app. right. apply in_or_app. right. left. reflexivity.
Defined.

(** ffprobe cannot read the tags of the track, and MusicBrainz knows the
    name: the resolver returns the MusicBrainz result, although the tag
    read gave no empty artist and no empty album: it gave an error. *)
Lemma getAlbumMetadata_lookup_after_failed_read :
  let h := stateless (Doubles.resolver_env (mkCmdResult "" "" Doubles.failed)
                                           "{foo-bar}") in
  result h tt (@readTags Doubles.decoders "t/x.flac")
  = Returned (None, Doubles.failed) /\
  ~ tags_empty (result h tt (@readTags Doubles.decoders "t/x.flac")) /\
  result h tt (@getAlbumMetadata Doubles.decoders "t" "t/x.flac")
  = Returned (Some (mkMusicMetadata "Foo" "Bar" "Song"), None).
Proof. repeat split. intros []. Qed.

(** The tags of the track have no artist.  When MusicBrainz knows the
    name, what the resolver returns is the result of the lookup; when the
    recording it returns has no release, the resolution fails. *)
Lemma getAlbumMetadata_witness :
  let h := stateless (Doubles.resolver_env (Doubles.ok "{no-artist}") "{foo-bar}") in
  let h' := stateless (Doubles.resolver_env (Doubles.ok "{no-artist}") "{no-release}") in
  (result h tt (@getAlbumMetadata Doubles.decoders "t" "t/x.flac")
   = Returned (Some (mkMusicMetadata "Foo" "Bar" "Song"), None) /\
   tags_unusable (result h tt (@readTags Doubles.decoders "t/x.flac")) /\
   result h tt (@fetchMusicBrainzInfo Doubles.decoders "t/x.flac")
   = Returned (Some (mkMusicMetadata "Foo" "Bar" "Song"), None)) /\
  (tags_unusable (result h' tt (@readTags Doubles.decoders "t/x.flac")) /\
   @UnmarshalMB Doubles.decoders "{no-release}"
   = (mkMBData [mkMBRecording "Song" []], None) /\
   result h' tt (@getAlbumMetadata Doubles.decoders "t" "t/x.flac")
   = Returned (None, Some (ErrWrap "metadata lookup failed"
                             (ErrNew "no MusicBrainz match")))).
Proof.
  intros h h'. split.
  - assert (Hres : result h tt (@getAlbumMetadata Doubles.decoders "t" "t/x.flac")
                   = Returned (Some (mkMusicMetadata "Foo" "Bar" "Song"), None))
      by reflexivity.
    split; [exact Hres|].
    destruct (proj1 (@getAlbumMetadata_sources Doubles.decoders unit h tt
                       "t" "t/x.flac") _ Hres) as [[Htags _] | Hlookup].
    + vm_compute in Htags. discriminate Htags.
    + exact Hlookup.
  - assert (Hun : tags_unusable (result h' tt (@readTags Doubles.decoders "t/x.flac")))
      by (left; reflexivity).
    split; [exact Hun|]. split; [reflexivity|].
    apply (proj2 (@getAlbumMetadata_sources Doubles.decoders unit h' tt
                    "t" "t/x.flac")
             (Doubles.ok "{no-release}") tt
             (mkMBData [mkMBRecording "Song" []]) Hun eq_refl eq_refl eq_refl).
    right. exists (mkMBRecording "Song" []), []. split; reflexivity.
Defined.

(** The tags of the track have no artist, and the first release that
    MusicBrainz returns has no artist credit: the resolver panics. *)
Lemma empty_artist_credit_witness :
  let h := stateless (Doubles.resolver_env (Doubles.ok "{no-artist}") "{no-credit}") in
  let release := mkMBRelease "Bar" [] in
  let recording := mkMBRecording "Song" [release] in
  tags_unusable (result h tt (@readTags Doubles.decoders "t/x.flac")) /\
  h (Exec "curl" ["-s"; @mbURL Doubles.decoders "t/x.flac"]) tt
  = (Doubles.ok "{no-credit}", tt) /\
  @UnmarshalMB Doubles.decoders "{no-credit}" = (mkMBData [recording], None) /\
  result h tt (@fetchMusicBrainzInfo Doubles.decoders "t/x.flac")
  = Panicked "index out of range" /\
  result h tt (@getAlbumMetadata Doubles.decoders "t" "t/x.flac")
  = Panicked "index out of range".
Proof.
  intros h release recording.
  assert (Hun : tags_unusable (result h tt (@readTags Doubles.decoders "t/x.flac")))
    by (left; reflexivity).
  repeat (split; [first [exact Hun | reflexivity]|]).
  apply (@empty_artist_credit_panics Doubles.decoders unit h tt tt "t" "t/x.flac"
           (Doubles.ok "{no-credit}") (mkMBData [recording])
           recording [] release []); first [exact Hun | reflexivity].
Defined.

(** C6.  A track [Song.MP3] whose sidecar [Song.lrc] exists: the
    extension that the code trims from the path is the lower-cased one, so
    it looks for [Song.MP3.lrc], does not find it, asks the lyrics provider
    and writes [Song.MP3.lrc].  The existing sidecar does not stop the
    network call. *)
Lemma upper_case_extension_misses_sidecar :
  let h := stateless (Doubles.lyrics_env "200.0" "{plain}") in
  let info := mkFileInfo "Song.MP3" false in
  Spec.sidecar "album/Song.MP3" = "album/Song.lrc" /\
  h (Stat "album/Song.lrc") tt = (None, tt) /\
  lrcPathOf "album/Song.MP3" info = "album/Song.MP3.lrc" /\
  calls (trace h tt (@lyricsWalkFn Doubles.decoders "album/Song.MP3" (Some info) None))
  = [ Stat "album/Song.MP3.lrc";
      Exec "ffprobe" ["-v"; "quiet"; "-print_format"; "json"; "-show_format";
                      "album/Song.MP3"];
      Exec "ffprobe" (durationArgs "album/Song.MP3");
      HttpGet "https://lrclib.net/api/get?artist_name=Foo+Fighters&track_name=Song&album_name=Bar&duration=200";
      BodyClose "https://lrclib.net/api/get?artist_name=Foo+Fighters&track_name=Song&album_name=Bar&duration=200";
      WriteFile "album/Song.MP3.lrc"
        ("[00:00.00] Line1" ++ Doubles.newline ++
         "[00:00.00] Line2" ++ Doubles.newline) ].
Proof. repeat split. Qed.

(* ===================================================================== *)
(** * Walks, and the embedding of the cover                               *)
(* ===================================================================== *)

Section Walking.
Context {S : Type} (h : Handler S).
Import GoStrings.
Local Arguments HasSuffix : simpl never.
Local Arguments ToLower : simpl never.

Lemma walk_dir (path name : string) (readErr : option error)
    (entries : list FileTree) (fn : WalkFunc) :
  walk path (TDir name readErr entries) fn =
  (err1 ← fn path (Some (mkFileInfo name true)) readErr;
   if notnil readErr || notnil err1 then mret err1
   else walk_entries path fn entries).
Proof. reflexivity. Qed.

Lemma walk_entries_cons (path : string) (fn : WalkFunc)
    (c : FileTree) (rest : list FileTree) :
  walk_entries path fn (c :: rest) =
  let filename := FilePath.Join [path; tree_name c] in
  match c with
  | TBad _ e =>
      err ← fn filename None (Some e);
      if notnil err && negb (is_SkipDir err) then mret err
      else walk_entries path fn rest
  | _ =>
      err ← walk filename c fn;
      if notnil err && (negb (tree_is_dir c) || negb (is_SkipDir err))
      then mret err
      else walk_entries path fn rest
  end.
Proof. destruct c; reflexivity. Qed.

(** The loop over the entries goes on to the later entries exactly when
    it has gone through the earlier ones with nil. *)
Lemma run_walk_entries_app (s : S) (path : string) (fn : WalkFunc)
    (pre post : list FileTree) :
  run h s (walk_entries path fn (pre ++ post)) =
  match run h s (walk_entries path fn pre) with
  | (tr1, s1, Returned None) =>
      let '(tr2, s2, o) := run h s1 (walk_entries path fn post) in
      ((tr1 ++ tr2)%list, s2, o)
  | other => other
  end.
Proof.
  revert s. induction pre as [|c pre IH]; intros s.
  - cbn. destruct (run h s (walk_entries path fn post)) as [[tr2 s2] o].
    reflexivity.
  - assert (Hgo : forall s0 tr0,
      (let '(tr2, s2, o) := run h s0 (walk_entries path fn (pre ++ post)) in
       ((tr0 ++ tr2)%list, s2, o)) =
      match
        (let '(tr2, s2, o) := run h s0 (walk_entries path fn pre) in
         ((tr0 ++ tr2)%list, s2, o))
      with
      | (tr1, s1, Returned None) =>
          let '(tr2, s2, o) := run h s1 (walk_entries path fn post) in
          ((tr1 ++ tr2)%list, s2, o)
      | other => other
      end).
    { intros s0 tr0. rewrite IH.
      destruct (run h s0 (walk_entries path fn pre)) as [[tr1 s1] [[e1|]|m1]];
        try reflexivity.
      destruct (run h s1 (walk_entries path fn post)) as [[tr2 s2] o].
      now rewrite app_assoc. }
    rewrite <- app_comm_cons, !walk_entries_cons. cbn zeta.
    destruct c as [name|name rerr entries|name e]; rewrite !run_mbind.
    + destruct (run h s (walk _ _ fn)) as [[tr0 s0] [[err|]|msg]];
        cbn; try reflexivity. apply Hgo.
    + destruct (run h s (walk _ _ fn)) as [[tr0 s0] [[err|]|msg]];
        cbn; try reflexivity; [|apply Hgo].
      destruct err; cbn; try reflexivity. apply Hgo.
    + destruct (run h s (fn _ None (Some e))) as [[tr0 s0] [[err|]|msg]];
        cbn; try reflexivity; [|apply Hgo].
      destruct err; cbn; try reflexivity. apply Hgo.
Qed.

(** An error returned for a file ends the loop: the entries after the
    file are not visited. *)
Lemma run_walk_entries_file_error (s s1 : S) (path : string) (fn : WalkFunc)
    (name : string) (post : list FileTree) (tr : list event) (err : error) :
  run h s (fn (FilePath.Join [path; name]) (Some (mkFileInfo name false)) None)
  = (tr, s1, Returned (Some err)) ->
  run h s (walk_entries path fn (TFile name :: post)) = (tr, s1, Returned (Some err)).
Proof.
  intros Hfn. rewrite walk_entries_cons. cbn zeta. rewrite run_mbind.
  cbn [walk tree_name]. rewrite Hfn. cbn. now rewrite app_nil_r.
Qed.

Ltac answer_effects :=
  repeat match goal with
         | |- context [h ?e ?s] =>
             let r := fresh "r" in let s' := fresh "s" in
             destruct (h e s) as [r s']; cbn in *
         | r : (_ * _)%type |- _ => destruct r; cbn in *
         | r : option _ |- _ => destruct r; cbn in *
         | r : unit |- _ => destruct r; cbn in *
         end.

(** The errors of the embedding are errors of its own, not the
    sentinels of the walk. *)
Lemma embed_error_not_skip (s s1 : S) (data path name : string)
    (tr : list event) (err : error) :
  run h s (Media.embedWalkFn data path (Some (mkFileInfo name false)) None)
  = (tr, s1, Returned (Some err)) ->
  is_SkipDir (Some err) = false /\ is_SkipAll (Some err) = false.
Proof.
  unfold Media.embedWalkFn, Media.embedCoverMP3, Media.embedCoverFLAC. cbn.
  destruct (HasSuffix (ToLower name) ".mp3");
    [|destruct (HasSuffix (ToLower name) ".flac")]; cbn.
  - answer_effects; intros [= <- <- <-] || intros [=]; split; reflexivity.
  - repeat (answer_effects;
            try match goal with
                | |- context [RunErr ?r] => destruct (RunErr r); cbn
                end);
      intros [= <- <- <-] || intros [=]; split; reflexivity.
  - intros [=].
Qed.

(** C4 (amended). In an album directory with a cover image, a failure
    to embed the cover into one track ends the walk over the album: when
    the entries before the track were visited without error and the
    embedding into the track fails, [EmbedAlbumArtIntoFolder] does
    nothing after that attempt, so no entry after the track is visited,
    and it returns the error of the track. *)
Theorem embed_failure_ends_walk (s sc sr sl sp sf : S)
    (albumDir coverFile coverData dirname name : string)
    (pre post : list FileTree) (tr0 tr1 tr2 : list event) (err : error) :
  run h s (Media.FindCoverImage albumDir) = (tr0, sc, Returned (coverFile, None)) ->
  h (ReadFile coverFile) sc = ((coverData, None), sr) ->
  h (Lstat albumDir) sr = (TDir dirname None (pre ++ TFile name :: post), sl) ->
  run h sl (walk_entries albumDir (Media.embedWalkFn coverData) pre)
  = (tr1, sp, Returned None) ->
  run h sp (Media.embedWalkFn coverData (FilePath.Join [albumDir; name])
              (Some (mkFileInfo name false)) None)
  = (tr2, sf, Returned (Some err)) ->
  run h s (Media.EmbedAlbumArtIntoFolder albumDir) =
  ((tr0 ++ Ev (ReadFile coverFile) (coverData, None)
        :: Ev (Lstat albumDir) (TDir dirname None (pre ++ TFile name :: post))
        :: tr1 ++ tr2)%list,
   sf, Returned (Some err)).
Proof.
  intros Hcover Hread Hlstat Hpre Hfail.
  destruct (embed_error_not_skip _ _ _ _ _ _ _ Hfail) as [Hd Ha].
  unfold Media.EmbedAlbumArtIntoFolder.
  rewrite run_mbind, Hcover. cbn. rewrite Hread. cbn.
  unfold Walk. cbn. rewrite Hlstat. rewrite run_mbind, walk_dir, run_mbind.
  cbn. rewrite run_walk_entries_app, Hpre.
  rewrite (run_walk_entries_file_error _ _ _ _ _ _ _ _ Hfail).
  cbn. cbn in Hd, Ha. rewrite Hd, Ha. cbn. now rewrite !app_nil_r.
Qed.
End Walking.


(* ===================================================================== *)
(** * What a program can do at all                                        *)
(* ===================================================================== *)

Lemma FileTree_nested_ind (P : FileTree -> Prop) :
  (forall name, P (TFile name)) ->
  (forall name e, P (TBad name e)) ->
  (forall name readErr entries, Forall P entries -> P (TDir name readErr entries)) ->
  forall t, P t.
Proof.
  intros Hfile Hbad Hdir. fix IH 1.
  intros [name|name readErr entries|name e]; [apply Hfile| |apply Hbad].
  apply Hdir. induction entries as [|c rest IHrest]; constructor.
  - apply IH.
  - exact IHrest.
Qed.

Section Effects.
Context (P : effect -> Prop).

Lemma performs_only_bind {A B : Type} (p : Prog A) (f : A -> Prog B) :
  performs_only P p -> (forall a, performs_only P (f a)) ->
  performs_only P (bind p f).
Proof.
  intros Hp Hf. induction p as [a|msg|e k IH]; cbn.
  - apply Hf.
  - exact I.
  - destruct Hp as [He Hk]. split; [exact He|]. intros r. apply IH, Hk.
Qed.

Lemma performs_only_mbind {A B : Type} (p : Prog A) (f : A -> Prog B) :
  performs_only P p -> (forall a, performs_only P (f a)) ->
  performs_only P (p ≫= f).
Proof. apply performs_only_bind. Qed.

Lemma performs_only_defer {A : Type} (cleanup : Prog unit) (body : Prog A) :
  performs_only P cleanup -> performs_only P body ->
  performs_only P (defer cleanup body).
Proof.
  intros Hc Hb. induction body as [a|msg|e k IH]; cbn.
  - apply performs_only_bind; [exact Hc | intros; exact I].
  - apply performs_only_bind; [exact Hc | intros; exact I].
  - destruct Hb as [He Hk]. split; [exact He|]. intros r. apply IH, Hk.
Qed.

Lemma performs_only_for_each {A : Type} (l : list A) (body : A -> Prog unit) :
  (forall x, performs_only P (body x)) -> performs_only P (for_each l body).
Proof.
  intros Hbody. induction l as [|x rest IH]; cbn; [exact I|].
  apply performs_only_bind; [apply Hbody | intros; exact IH].
Qed.

Lemma performs_only_trigger (e : effect) : P e -> performs_only P (trigger e).
Proof. intros He. split; [exact He | intros; exact I]. Qed.

Lemma performs_only_deref {A : Type} (p : option A) : performs_only P (deref p).
Proof. destruct p; exact I. Qed.

Lemma performs_only_index {A : Type} (l : list A) (i : nat) :
  performs_only P (index l i).
Proof. unfold index. destruct (l !! i); exact I. Qed.

Lemma performs_only_walk (fn : WalkFunc) :
  (forall path info err, performs_only P (fn path info err)) ->
  forall t path, performs_only P (walk path t fn).
Proof.
  intros Hfn t. induction t as [name|name e|name readErr entries IH]
    using FileTree_nested_ind; intros path.
  - apply Hfn.
  - apply Hfn.
  - rewrite walk_dir. apply performs_only_mbind; [apply Hfn|]. intros err1.
    destruct (notnil readErr || notnil err1); [exact I|].
    induction IH as [|c rest Hc _ IHrest]; [exact I|].
    rewrite walk_entries_cons. cbn zeta.
    destruct c; (apply performs_only_mbind; [first [apply Hc | apply Hfn]|]);
      intros err; match goal with |- performs_only _ (if ?b then _ else _) => destruct b end;
      first [exact I | exact IHrest].
Qed.

Lemma performs_only_Walk (root : string) (fn : WalkFunc) :
  P (Lstat root) ->
  (forall path info err, performs_only P (fn path info err)) ->
  performs_only P (Walk root fn).
Proof.
  intros Hl Hfn. unfold Walk.
  apply performs_only_mbind; [now apply performs_only_trigger|]. intros t.
  apply performs_only_mbind.
  - destruct t; first [apply Hfn | now apply performs_only_walk].
  - intros err. destruct (is_SkipDir err || is_SkipAll err); exact I.
Qed.

(** What a program never does, no run of it does. *)
Lemma performs_only_trace {S A : Type} (h : Handler S) (s : S) (p : Prog A) :
  performs_only P p -> Forall P (calls (trace h s p)).
Proof.
  unfold calls, trace. revert s.
  induction p as [a|msg|e k IH]; intros s Hp; cbn; [constructor..|].
  destruct Hp as [He Hk]. destruct (h e s) as [r s1].
  specialize (IH r s1 (Hk r)).
  destruct (run h s1 (k r)) as [[tr s2] o]. cbn in *.
  constructor; assumption.
Qed.

Lemma performs_only_exec {A : Type} (p : Prog A) (tr : list event) (o : outcome A) :
  performs_only P p -> exec p tr o -> Forall P (calls tr).
Proof.
  revert tr. induction p as [a|msg|e k IH]; intros tr Hp Hex; cbn in Hex.
  - destruct Hex as [-> _]. constructor.
  - destruct Hex as [-> _]. constructor.
  - destruct Hp as [He Hk]. destruct Hex as (r & tr' & -> & Hex).
    constructor; [exact He|]. now apply (IH r).
Qed.
End Effects.

(* ===================================================================== *)
(** * The importer and the lyrics step                                    *)
(* ===================================================================== *)

Create HintDb no_lyrics_db.

Ltac only_step :=
  match goal with
  | |- forall _, _ => intros ?
  | |- performs_only _ (Ret _) => exact I
  | |- performs_only _ (mret _) => exact I
  | |- performs_only _ (Panic _) => exact I
  | |- performs_only _ (deref _) => apply performs_only_deref
  | |- performs_only _ (index _ _) => apply performs_only_index
  | |- performs_only _ (trigger _) => apply performs_only_trigger; intros []
  | |- performs_only _ (for_each _ _) => apply performs_only_for_each
  | |- performs_only _ (defer _ _) => apply performs_only_defer
  | |- performs_only _ (Walk _ _) => apply performs_only_Walk; [intros [] |]
  | |- performs_only _ (bind _ _) => apply performs_only_bind
  | |- performs_only _ (_ ≫= _) => apply performs_only_mbind
  | |- performs_only _ ((fun _ => _) _) => cbn beta
  | |- performs_only _ (match ?x with _ => _ end) => destruct x
  | |- performs_only _ _ => solve [auto with no_lyrics_db]
  end.

Ltac only_steps := repeat only_step.

Section NoLyrics.
Context `{Decoders}.

Lemma runCmd_no_lyrics (name : string) (args : list string) :
  performs_only no_lyrics (runCmd name args).
Proof. unfold runCmd. only_steps. Qed.

Lemma readTags_no_lyrics (path : string) :
  performs_only no_lyrics (readTags path).
Proof. unfold readTags. only_steps. Qed.

Lemma fetchMusicBrainzInfo_no_lyrics (filename : string) :
  performs_only no_lyrics (fetchMusicBrainzInfo filename).
Proof. unfold fetchMusicBrainzInfo. only_steps. Qed.

Hint Resolve runCmd_no_lyrics readTags_no_lyrics
  fetchMusicBrainzInfo_no_lyrics : no_lyrics_db.

Lemma getAlbumMetadata_no_lyrics (albumPath trackPath : string) :
  performs_only no_lyrics (getAlbumMetadata albumPath trackPath).
Proof. unfold getAlbumMetadata, tagWithBeets. only_steps. Qed.

Lemma FindCoverImage_no_lyrics (dir : string) :
  performs_only no_lyrics (Media.FindCoverImage dir).
Proof. unfold Media.FindCoverImage. only_steps. Qed.

Lemma embedCoverMP3_no_lyrics (path cover : string) :
  performs_only no_lyrics (Media.embedCoverMP3 path cover).
Proof. unfold Media.embedCoverMP3. only_steps. Qed.

Lemma embedCoverFLAC_no_lyrics (path cover : string) :
  performs_only no_lyrics (Media.embedCoverFLAC path cover).
Proof. unfold Media.embedCoverFLAC. only_steps. Qed.

Hint Resolve getAlbumMetadata_no_lyrics FindCoverImage_no_lyrics
  embedCoverMP3_no_lyrics embedCoverFLAC_no_lyrics : no_lyrics_db.

Lemma EmbedAlbumArtIntoFolder_no_lyrics (albumDir : string) :
  performs_only no_lyrics (Media.EmbedAlbumArtIntoFolder albumDir).
Proof.
  unfold Media.EmbedAlbumArtIntoFolder, Media.embedWalkFn. only_steps.
Qed.

Lemma moveToLibrary_no_lyrics (libDir : string) (md : option MusicMetadata)
    (srcPath : string) :
  performs_only no_lyrics (moveToLibrary libDir md srcPath).
Proof. unfold moveToLibrary. only_steps. Qed.

Lemma getAudioFiles_no_lyrics (dir : string) :
  performs_only no_lyrics (getAudioFiles dir).
Proof. unfold getAudioFiles. only_steps. Qed.

Hint Resolve EmbedAlbumArtIntoFolder_no_lyrics moveToLibrary_no_lyrics
  getAudioFiles_no_lyrics : no_lyrics_db.

Lemma importEntry_no_lyrics (importDir libraryDir : string) (e : FileInfo) :
  performs_only no_lyrics (importEntry importDir libraryDir e).
Proof. unfold importEntry, applyReplayGain. only_steps. Qed.

Hint Resolve importEntry_no_lyrics : no_lyrics_db.

Lemma RunImporter_no_lyrics : performs_only no_lyrics RunImporter.
Proof. unfold RunImporter. only_steps. Qed.

(** The lyrics step for an audio track begins with the look for its
    sidecar. *)
Lemma lyricsWalkFn_begins_with_Stat {S : Type} (h : Handler S) (s : S)
    (path : string) (info : FileInfo) :
  audio_track info ->
  exists answer rest,
    trace h s (lyricsWalkFn path (Some info) None) =
    Ev (Stat (lrcPathOf path info)) answer :: rest.
Proof.
  intros Ha. apply audio_track_ext in Ha as [Hd Hext].
  unfold trace, lyricsWalkFn. cbn. rewrite Hd, Hext. cbn.
  fold (lrcPathOf path info).
  destruct (h (Stat (lrcPathOf path info)) s) as [answer s1].
  destruct (run h s1 _) as [[rest s2] o].
  exists answer, rest. reflexivity.
Qed.

(** C2 (amended). No run of the importer contains the lyrics step: in
    every environment, [RunImporter] performs no look for a sidecar, no
    query to the lyrics provider and no write of a sidecar, whereas the
    lyrics step begins, for every audio track, with the look for its
    sidecar.  The control flow of a run is the scan, the metadata
    resolution, ReplayGain, the cover embedding, the moves and the
    removal of the album directory; [DownloadAlbumLyrics] is reached by
    nothing in it. *)
Theorem RunImporter_never_fetches_lyrics {S : Type} (h : Handler S) (s : S) :
  Forall (fun e => ~ lyrics_effect e) (calls (trace h s RunImporter)) /\
  forall path info,
    audio_track info ->
    exists answer rest,
      trace h s (lyricsWalkFn path (Some info) None) =
      Ev (Stat (lrcPathOf path info)) answer :: rest.
Proof.
  split.
  - apply performs_only_trace, RunImporter_no_lyrics.
  - intros path info. apply lyricsWalkFn_begins_with_Stat.
Qed.
End NoLyrics.

(** An album of two tagged MP3 tracks and a cover, where everything
    succeeds: both tracks are moved to the library, and the run has
    looked for no sidecar and asked the lyrics provider nothing. *)
Lemma RunImporter_moves_without_lyrics :
  let h := stateless (Doubles.album_env "") in
  let done := calls (trace h tt (@RunImporter Doubles.decoders)) in
  In (Rename "/in/A/a.mp3" "/lib/Foo Fighters/Bar/a.mp3") done /\
  In (Rename "/in/A/b.mp3" "/lib/Foo Fighters/Bar/b.mp3") done /\
  ~ In (Stat "/in/A/a.lrc") done /\
  ~ In (Stat "/in/A/b.lrc") done /\
  (forall url, ~ In (HttpGet url) done).
Proof.
  intros h done. vm_compute in done. subst done.
  repeat split.
  - cbn. repeat (first [left; reflexivity | right]).
  - cbn. repeat (first [left; reflexivity | right]).
  - intros Hin. cbn in Hin.
    repeat (destruct Hin as [Hin|Hin]; [discriminate Hin|]). exact Hin.
  - intros Hin. cbn in Hin.
    repeat (destruct Hin as [Hin|Hin]; [discriminate Hin|]). exact Hin.
  - intros url Hin. cbn in Hin.
    repeat (destruct Hin as [Hin|Hin]; [discriminate Hin|]). exact Hin.
Qed.

(** The same album seen by the two steps: the run of the importer has no
    effect of the lyrics step, and the lyrics step on its first track
    begins with the look for [a.lrc]. *)
Lemma RunImporter_never_fetches_lyrics_witness :
  let h := stateless (Doubles.album_env "") in
  let info := mkFileInfo "a.mp3" false in
  audio_track info /\
  Forall (fun e => ~ lyrics_effect e)
         (calls (trace h tt (@RunImporter Doubles.decoders))) /\
  exists answer rest,
    trace h tt (@lyricsWalkFn Doubles.decoders "/in/A/a.mp3" (Some info) None) =
    Ev (Stat "/in/A/a.lrc") answer :: rest.
Proof.
  intros h info.
  assert (Ha : audio_track info) by (split; [reflexivity | left; reflexivity]).
  destruct (@RunImporter_never_fetches_lyrics Doubles.decoders unit h tt)
    as [Hnone Hstat].
  split; [exact Ha|]. split; [exact Hnone|].
  exact (Hstat "/in/A/a.mp3" info Ha).
Defined.

Section Skipping.
Context `{Decoders} {S : Type} (h : Handler S).
Import GoStrings.
Local Arguments getAudioFiles : simpl never.
Local Arguments getAlbumMetadata : simpl never.
Local Arguments applyReplayGain : simpl never.
Local Arguments Media.EmbedAlbumArtIntoFolder : simpl never.

(** The importer leaves an album at the first stage that fails: when the
    cover embedding returns an error, nothing of the album is moved. *)
Lemma importEntry_skips_album_on_embed_error (s s1 s2 s3 s4 : S)
    (importDir libraryDir : string) (e : FileInfo)
    (track : string) (tracks : list string) (md : option MusicMetadata)
    (err : error) (tr1 tr2 tr3 tr4 : list event) :
  let albumPath := FilePath.Join [importDir; Name e] in
  IsDir e = true ->
  run h s (getAudioFiles albumPath) = (tr1, s1, Returned (track :: tracks, None)) ->
  run h s1 (getAlbumMetadata albumPath track) = (tr2, s2, Returned (md, None)) ->
  run h s2 (applyReplayGain albumPath) = (tr3, s3, Returned None) ->
  run h s3 (Media.EmbedAlbumArtIntoFolder albumPath) = (tr4, s4, Returned (Some err)) ->
  run h s (importEntry importDir libraryDir e)
  = ((tr1 ++ tr2 ++ tr3 ++ tr4)%list, s4, Returned tt).
Proof.
  intros albumPath Hd Ha Hm Hg He.
  unfold importEntry. rewrite Hd. cbn [negb]. fold albumPath.
  rewrite run_mbind, Ha. cbn.
  rewrite run_mbind, Hm. cbn.
  rewrite run_mbind, Hg. cbn.
  rewrite run_mbind, He. cbn.
  now rewrite !app_nil_r.
Qed.
End Skipping.

(** The album again, but the first track cannot be opened for tagging:
    the embedding stops there.  Nothing is done to the second track, the
    function returns the error, and the importer moves no file of the
    album. *)
Lemma embed_failure_skips_later_tracks :
  let h := stateless (Doubles.album_env "/in/A/a.mp3") in
  let done := calls (trace h tt (Media.EmbedAlbumArtIntoFolder "/in/A")) in
  done = [ ReadDir "/in/A"; ReadFile "/in/A/cover.jpg"; Lstat "/in/A";
           ID3Open "/in/A/a.mp3" ] /\
  ~ Exists (embeds_into "/in/A/b.mp3") done /\
  result h tt (Media.EmbedAlbumArtIntoFolder "/in/A")
  = Returned (Some (ErrWrap "mp3 open" (ErrExt "exit status 1"))) /\
  (forall oldpath newpath,
     ~ In (Rename oldpath newpath)
          (calls (trace h tt (@RunImporter Doubles.decoders)))).
Proof.
  intros h done. vm_compute in done. subst done.
  split; [reflexivity|]. split; [|split; [reflexivity|]].
  - intros Hex. repeat (apply Exists_cons in Hex as [Hex|Hex]; [cbn in Hex|]);
      try discriminate Hex; try contradiction.
    inversion Hex.
  - intros oldpath newpath Hin. vm_compute in Hin.
    repeat (destruct Hin as [Hin|Hin]; [discriminate Hin|]). exact Hin.
Qed.

(** The same album, by the theorem: no entry precedes [a.mp3], the
    entries [b.mp3] and [cover.jpg] follow it. *)
Lemma embed_failure_ends_walk_witness :
  let h := stateless (Doubles.album_env "/in/A/a.mp3") in
  let entries := ([mkFileInfo "a.mp3" false; mkFileInfo "b.mp3" false;
                   mkFileInfo "cover.jpg" false], None) in
  let tree := TDir "A" None ([] ++ TFile "a.mp3" :: [TFile "b.mp3"; TFile "cover.jpg"]) in
  let err := ErrWrap "mp3 open" (ErrExt "exit status 1") in
  run h tt (Media.FindCoverImage "/in/A")
  = ([Ev (ReadDir "/in/A") entries], tt, Returned ("/in/A/cover.jpg", None)) /\
  h (ReadFile "/in/A/cover.jpg") tt = (("JPEG", None), tt) /\
  h (Lstat "/in/A") tt = (tree, tt) /\
  run h tt (Media.embedWalkFn "JPEG" (FilePath.Join ["/in/A"; "a.mp3"])
              (Some (mkFileInfo "a.mp3" false)) None)
  = ([Ev (ID3Open "/in/A/a.mp3") Doubles.failed], tt, Returned (Some err)) /\
  run h tt (Media.EmbedAlbumArtIntoFolder "/in/A")
  = ([ Ev (ReadDir "/in/A") entries;
       Ev (ReadFile "/in/A/cover.jpg") ("JPEG", None);
       Ev (Lstat "/in/A") tree;
       Ev (ID3Open "/in/A/a.mp3") Doubles.failed ],
     tt, Returned (Some err)).
Proof.
  intros h entries tree err.
  repeat (split; [reflexivity|]).
  exact (embed_failure_ends_walk h tt tt tt tt tt tt
           "/in/A" "/in/A/cover.jpg" "JPEG" "A" "a.mp3"
           [] [TFile "b.mp3"; TFile "cover.jpg"]
           [Ev (ReadDir "/in/A") entries] []
           [Ev (ID3Open "/in/A/a.mp3") Doubles.failed] err
           eq_refl eq_refl eq_refl eq_refl eq_refl).
Defined.

(* ===================================================================== *)
(** * The run trigger                                                     *)
(* ===================================================================== *)

Module ServerFacts.
Import Server.

Lemma count_app f l1 l2 : count f (l1 ++ l2) = count f l1 + count f l2.
Proof. unfold count. now rewrite List.filter_app, length_app. Qed.

Lemma count_insert f (l : list goroutine) (i : nat) (x y : goroutine) :
  l !! i = Some x ->
  count f (<[i := y]> l) + (if f x then 1 else 0)
  = count f l + (if f y then 1 else 0).
Proof.
  revert i. induction l as [|a l IH]; intros [|i] Hl; try discriminate.
  - injection Hl as ->. unfold count. cbn.
    destruct (f x), (f y); cbn; lia.
  - cbn in Hl. specialize (IH i Hl). unfold count in *. cbn.
    destruct (f a); cbn; [f_equal|]; exact IH.
Qed.

Lemma invariant_start (requests : list goroutine) :
  Forall fresh requests -> invariant (start requests).
Proof.
  intros Hfresh. split; cbn.
  - reflexivity.
  - induction Hfresh as [|g l Hg _ IH]; constructor; [|exact IH].
    destruct g; try contradiction; reflexivity.
  - unfold started_runs, count. cbn.
    induction Hfresh as [|g l Hg _ IH]; [reflexivity|].
    destruct g; try contradiction; cbn; try exact IH.
Qed.

Lemma invariant_step (c c' : config) :
  invariant c -> step c c' -> invariant c'.
Proof.
  intros Hinv Hst. destruct Hst as [i c c' Hstep].
  destruct Hinv as [Hflag Hobs Hruns].
  unfold step_at in Hstep.
  destruct (pool c !! i) as [g|] eqn:Hg; [|discriminate]. cbn in Hstep.
  unfold started_runs in *. fold (count is_import (pool c)) in Hruns.
  pose proof (fun y => count_insert is_import (pool c) i g y Hg) as Himp.
  pose proof (fun y => count_insert has_spawned (pool c) i g y Hg) as Hsp.
  assert (Hog : observed g = false).
  { rewrite Forall_forall in Hobs. apply Hobs.
    eapply list_elem_of_lookup_2; eassumption. }
  destruct g; cbn in Hstep, Hog;
    repeat match type of Hstep with
           | (if ?b then _ else _) = _ => destruct b eqn:?
           end;
    try discriminate; injection Hstep as <-; subst.
  all: split; cbn.
  all: try assumption.
  all: try (apply Forall_insert; [assumption | cbn; first [reflexivity | assumption]]).
  all: try (apply Forall_app_2;
            [apply Forall_insert; [assumption | reflexivity]
            | repeat constructor]).
  all: rewrite ?Hflag; unfold count in *;
    match goal with
    | |- context [<[_:=?y]> _] => specialize (Himp y); specialize (Hsp y)
    end;
    cbn in Himp, Hsp; rewrite ?List.filter_app, ?length_app; cbn; lia.
Qed.

Lemma invariant_steps (c c' : config) :
  invariant c -> steps c c' -> invariant c'.
Proof.
  intros Hinv Hsteps. induction Hsteps as [c|c1 c2 c3 _ IH Hstep].
  - exact Hinv.
  - eapply invariant_step; [apply IH, Hinv | exact Hstep].
Qed.

Lemma schedule_steps (order : list nat) (c c' : config) :
  schedule order c = Some c' -> steps c c'.
Proof.
  revert c. induction order as [|i order IH]; intros c Hs; cbn in Hs.
  - injection Hs as <-. constructor.
  - destruct (step_at i c) as [c1|] eqn:Hstep; [|discriminate]. cbn in Hs.
    specialize (IH c1 Hs). clear Hs.
    induction IH as [c1|c1 c2 c3 _ IH' Hlast].
    + econstructor; [constructor | econstructor; exact Hstep].
    + econstructor; [apply IH', Hstep | exact Hlast].
Qed.

(** Whatever the requests and however their handlers are interleaved,
    [importerRunning] is never set, no handler reads it set, and every
    handler of a POST request that passes the test starts a run. *)
Lemma flag_never_set (requests : list goroutine) (c : config) :
  Forall fresh requests -> steps (start requests) c ->
  importerRunning c = false /\
  Forall (fun g => observed g = false) (pool c) /\
  started_runs c = count has_spawned (pool c).
Proof.
  intros Hfresh Hsteps.
  destruct (invariant_steps _ _ (invariant_start _ Hfresh) Hsteps)
    as [Hflag Hobs Hruns].
  auto.
Qed.

(** C1.  A POST request starts a run, and while that run is executing a
    second POST request is handled: its handler reads the flag, finds it
    clear, and starts a second run; two runs execute at once. *)
Theorem second_request_starts_second_run :
  let c0 := start [RunEnter MethodPost; RunEnter MethodPost] in
  let c1 := mkConfig false false
              [Responded StatusSeeOther false; RunEnter MethodPost; Importing] in
  let c2 := mkConfig false false
              [Responded StatusSeeOther false; Responded StatusSeeOther false;
               Importing; Importing] in
  schedule [0; 0; 0; 0; 0] c0 = Some c1 /\ active_runs c1 = 1 /\
  schedule [1; 1; 1] c1
  = Some (mkConfig false false
            [Responded StatusSeeOther false; RunUnlocked false; Importing]) /\
  schedule [1; 1; 1; 1; 1] c1 = Some c2 /\ active_runs c2 = 2.
Proof. repeat split. Qed.

End ServerFacts.

(* ===================================================================== *)
(** * More on the pure helpers                                            *)
(* ===================================================================== *)

Section PureFacts.
Import GoStrings.

Lemma length_append (a b : string) :
  String.length (a ++ b) = String.length a + String.length b.
Proof.
  induction a as [|c a IH]; [reflexivity|].
  rewrite append_cons. cbn. now rewrite IH.
Qed.

Lemma concat_empty_app (l1 l2 : list string) :
  String.concat "" (l1 ++ l2) = String.concat "" l1 ++ String.concat "" l2.
Proof.
  induction l1 as [|x l1 IH]; [reflexivity|].
  rewrite <- app_comm_cons.
  assert (Hc : forall x l, String.concat "" (x :: l) = x ++ String.concat "" l).
  { intros y [|z l]; cbn; [now rewrite append_nil_r | reflexivity]. }
  now rewrite !Hc, IH, append_assoc.
Qed.

Lemma Split_cons_shape (s : string) (sep : ascii) :
  exists piece pieces, Split s sep = piece :: pieces.
Proof.
  induction s as [|c s IH]; cbn; [eauto|].
  destruct (Ascii.eqb c sep); [eauto|].
  destruct IH as (p & ps & ->). eauto.
Qed.

Lemma Split_app_sep (a b : string) (sep : ascii) :
  Split (a ++ String sep b) sep = (Split a sep ++ Split b sep)%list.
Proof.
  induction a as [|c a IH].
  - change ("" ++ String sep b) with (String sep b).
    cbn. now rewrite Ascii.eqb_refl.
  - rewrite append_cons. cbn. destruct (Ascii.eqb c sep).
    + now rewrite IH.
    + rewrite IH. destruct (Split_cons_shape a sep) as (p & ps & ->). reflexivity.
Qed.

(** X1. [sanitize] leaves a string without any of the nine unsafe
    characters as it is. *)
Theorem sanitize_safe_string_unchanged (s : string) :
  (forall c, In c (bytes s) -> ~ In c Spec.unsafe) -> sanitize s = s.
Proof.
  induction s as [|c s IH]; intros Hsafe; [reflexivity|].
  rewrite sanitize_cons, IH.
  - pose proof (replacement_fixed c) as Hc.
    destruct (replacement sanitizeTable c) as [new|].
    + destruct Hc as [Hin _]. exfalso. apply (Hsafe c); [left; reflexivity | exact Hin].
    + destruct Hc as [_ ->]. reflexivity.
  - intros c' Hin. apply Hsafe. right. exact Hin.
Qed.

(** X2. [sanitize] works piece by piece: the result for a concatenation
    is the concatenation of the results; and it never makes a string
    longer. *)
Theorem sanitize_app_never_longer (a b : string) :
  sanitize (a ++ b) = sanitize a ++ sanitize b /\
  String.length (sanitize a) <= String.length a.
Proof.
  split; [apply Replace_app|].
  induction a as [|c a IH]; [reflexivity|].
  rewrite sanitize_cons, length_append. cbn [String.length].
  pose proof (replacement_fixed c) as Hc.
  destruct (replacement sanitizeTable c) as [new|].
  - destruct Hc as (_ & -> & [-> | [-> | ->]]); cbn; lia.
  - destruct Hc as [_ ->]. cbn. lia.
Qed.

(** X3. [urlEncode] turns every space into a plus sign and changes no
    other byte (so [&], [?], [#] and [%] go into the query as they are);
    its result has no space, and encoding twice is encoding once. *)
Theorem urlEncode_only_spaces (s : string) :
  bytes (urlEncode s) = map plus_for_space (bytes s) /\
  ~ In " "%char (bytes (urlEncode s)) /\
  urlEncode (urlEncode s) = urlEncode s.
Proof.
  assert (Hmap : forall t, bytes (urlEncode t) = map plus_for_space (bytes t)).
  { induction t as [|c t IH]; [reflexivity|].
    unfold urlEncode in *. cbn. unfold plus_for_space at 1.
    destruct (Ascii.eqb c " "); rewrite ?bytes_app; cbn; now rewrite IH. }
  assert (Hno : forall t, ~ In " "%char (bytes (urlEncode t))).
  { intros t. rewrite Hmap, in_map_iff. intros (c & Hc & _).
    unfold plus_for_space in Hc.
    destruct (Ascii.eqb_spec c " "); [discriminate | congruence]. }
  split; [apply Hmap|]. split; [apply Hno|].
  generalize (Hno s). generalize (urlEncode s) as t.
  induction t as [|c t IH]; intros Hns; [reflexivity|].
  unfold urlEncode in *. cbn.
  destruct (Ascii.eqb_spec c " ") as [->|_].
  - exfalso. apply Hns. left. reflexivity.
  - rewrite IH; [reflexivity|]. intros Hin. apply Hns. right. exact Hin.
Qed.

(** X4. [plainToLRC] works line by line: the result for two texts
    joined by a newline is the result for the first followed by the
    result for the second. *)
Theorem plainToLRC_app_lines (a b : string) :
  plainToLRC (a ++ String "010" b) = plainToLRC a ++ plainToLRC b.
Proof.
  rewrite !plainToLRC_lines.
  rewrite Split_app_sep, map_app.
  apply concat_empty_app.
Qed.

Lemma firstNonEmpty_cons (v : string) (vals : list string) :
  firstNonEmpty (v :: vals) = if is_empty v then firstNonEmpty vals else v.
Proof. unfold firstNonEmpty. cbn. now destruct (is_empty v). Qed.

(** X5. [firstNonEmpty] returns the empty string exactly when every
    value is empty; otherwise it returns a value of the list before which
    only empty values stand. *)
Theorem firstNonEmpty_first (vals : list string) :
  (firstNonEmpty vals = "" <-> Forall (fun v => v = "") vals) /\
  (firstNonEmpty vals <> "" ->
   exists skipped rest,
     vals = (skipped ++ firstNonEmpty vals :: rest)%list /\
     Forall (fun v => v = "") skipped).
Proof.
  induction vals as [|v vals [IHe IHf]].
  - split; [split; [constructor | reflexivity] | intros []; reflexivity].
  - rewrite firstNonEmpty_cons. unfold is_empty.
    destruct (String.eqb_spec v "") as [->|Hv].
    + split.
      * rewrite IHe. split; [now constructor|]. now inversion 1.
      * intros Hne. destruct (IHf Hne) as (skipped & rest & Heq & Hall).
        exists ("" :: skipped), rest. split; [now rewrite Heq at 1 | now constructor].
    + split.
      * split; [contradiction | inversion 1; contradiction].
      * intros _. exists [], vals. split; [reflexivity | constructor].
Qed.
End PureFacts.

(** The name [Bar] has none of the nine characters. *)
Lemma sanitize_safe_string_unchanged_witness :
  (forall c, In c (GoStrings.bytes "Bar") -> ~ In c Spec.unsafe) /\
  sanitize "Bar" = "Bar".
Proof.
  assert (Hsafe : forall c, In c (GoStrings.bytes "Bar") -> ~ In c Spec.unsafe).
  { intros c Hin Hun. cbn in Hin.
    repeat (destruct Hin as [<-|Hin];
            [vm_compute in Hun; intuition discriminate|]).
    exact Hin. }
  split; [exact Hsafe | exact (sanitize_safe_string_unchanged "Bar" Hsafe)].
Defined.

(** Of an empty [artist] and the values [Foo] and [Bar], the result is
    [Foo], after the one empty value. *)
Lemma firstNonEmpty_first_witness :
  firstNonEmpty [""; "Foo"; "Bar"] <> "" /\
  exists skipped rest,
    [""; "Foo"; "Bar"] = (skipped ++ firstNonEmpty [""; "Foo"; "Bar"] :: rest)%list /\
    Forall (fun v => v = "") skipped.
Proof.
  assert (Hne : firstNonEmpty [""; "Foo"; "Bar"] <> "") by (vm_compute; discriminate).
  split; [exact Hne|].
  exact (proj2 (firstNonEmpty_first [""; "Foo"; "Bar"]) Hne).
Defined.

Section LyricsProvider.
Context `{Decoders} {S : Type} (h : Handler S).

Lemma plainToLRC_not_empty (plain : string) : plainToLRC plain <> "".
Proof.
  rewrite plainToLRC_lines.
  destruct (Split_cons_shape plain "010") as (piece & pieces & ->).
  cbn [map]. unfold Spec.wrap_line.
  destruct (map _ pieces); cbn; discriminate.
Qed.

(** X6. [fetchLRCLibLyrics] always returns, and it returns lyrics exactly
    when it returns no error: without an error the lyrics are not empty,
    with an error they are the empty string. *)
Theorem fetchLRCLibLyrics_lyrics_iff_no_error (s : S)
    (artist title album : string) (duration : Z) :
  exists lyrics err,
    result h s (fetchLRCLibLyrics artist title album duration)
    = Returned (lyrics, err) /\
    (err = None -> lyrics <> "") /\
    (err <> None -> lyrics = "").
Proof.
  unfold result, fetchLRCLibLyrics. cbn.
  destruct (h (HttpGet _) s) as [[resp [err|]] s1]; cbn.
  - eexists _, _. split; [reflexivity|]. split; [discriminate | reflexivity].
  - rewrite run_defer.
    destruct (negb (StatusCode resp =? 200)%Z);
      [|destruct (BodyErr resp);
        [|destruct (UnmarshalLRCLib (Body resp)) as [out [e|]];
          [|destruct (negb (is_empty (SyncedLyrics out))) eqn:Hs;
            [|destruct (negb (is_empty (PlainLyrics out))) eqn:Hp]]]];
      cbn; destruct (h (BodyClose _) s1) as [[] s2]; cbn;
      eexists _, _; (split; [reflexivity|]);
      (split; [try discriminate | try reflexivity; try congruence]).
    + intros _. now apply not_empty_true.
    + intros _. apply plainToLRC_not_empty.
Qed.

(** X7. When [http.Get] succeeds, [fetchLRCLibLyrics] closes the body of
    the answer on every path, as its second and last effect; and an
    answer whose status is not 200 gives the error that names the
    status, whatever the body holds. *)
Theorem fetchLRCLibLyrics_closes_body (s s1 : S)
    (artist title album : string) (duration : Z) (resp : HttpResponse) :
  let url := lrclibURL artist title album duration in
  h (HttpGet url) s = ((resp, None), s1) ->
  calls (trace h s (fetchLRCLibLyrics artist title album duration))
  = [HttpGet url; BodyClose url] /\
  (StatusCode resp <> 200%Z ->
   result h s (fetchLRCLibLyrics artist title album duration)
   = Returned ("", Some (ErrNew ("lrclib returned status " ++
                                 format_int (StatusCode resp))))).
Proof.
  intros url Hget. unfold trace, result, fetchLRCLibLyrics. cbn.
  fold url. rewrite Hget. cbn. rewrite run_defer.
  split.
  - destruct (negb (StatusCode resp =? 200)%Z);
      [|destruct (BodyErr resp);
        [|destruct (UnmarshalLRCLib (Body resp)) as [out [e|]];
          [|destruct (negb (is_empty (SyncedLyrics out)));
            [|destruct (negb (is_empty (PlainLyrics out)))]]]];
      cbn; destruct (h (BodyClose _) s1) as [[] s2]; reflexivity.
  - intros Hstatus. apply Z.eqb_neq in Hstatus. rewrite Hstatus. cbn.
    destruct (h (BodyClose _) s1) as [[] s2]. reflexivity.
Qed.
End LyricsProvider.

(** The provider answers 200 with plain lyrics. *)
Lemma fetchLRCLibLyrics_lyrics_iff_no_error_witness :
  let h := stateless (Doubles.lyrics_env "200.0" "{plain}") in
  exists lyrics err,
    result h tt (@fetchLRCLibLyrics Doubles.decoders "Foo Fighters" "Song" "Bar" 200)
    = Returned (lyrics, err) /\
    (err = None -> lyrics <> "") /\
    (err <> None -> lyrics = "").
Proof.
  intros h.
  exact (@fetchLRCLibLyrics_lyrics_iff_no_error Doubles.decoders unit h tt
           "Foo Fighters" "Song" "Bar" 200).
Defined.

(** The provider answers 404: the body is closed, and the status is in
    the error. *)
Lemma fetchLRCLibLyrics_closes_body_witness :
  let h := stateless (Doubles.http_env (mkHttpResponse 404 "" None)) in
  let url := lrclibURL "Foo Fighters" "Song" "Bar" 200 in
  h (HttpGet url) tt = ((mkHttpResponse 404 "" None, None), tt) /\
  calls (trace h tt (@fetchLRCLibLyrics Doubles.decoders "Foo Fighters" "Song" "Bar" 200))
  = [HttpGet url; BodyClose url] /\
  result h tt (@fetchLRCLibLyrics Doubles.decoders "Foo Fighters" "Song" "Bar" 200)
  = Returned ("", Some (ErrNew "lrclib returned status 404")).
Proof.
  intros h url. split; [reflexivity|].
  destruct (@fetchLRCLibLyrics_closes_body Doubles.decoders unit h tt tt
              "Foo Fighters" "Song" "Bar" 200 (mkHttpResponse 404 "" None) eq_refl)
    as [Hcalls Hstatus].
  split; [exact Hcalls|].
  rewrite Hstatus; [reflexivity | discriminate].
Defined.


(* ===================================================================== *)
(** * More on the importer's helpers                                      *)
(* ===================================================================== *)

Section ImporterHelpers.
Context `{Decoders} {S : Type} (h : Handler S).
Import GoStrings.
Local Arguments readTags : simpl never.
Local Arguments fetchMusicBrainzInfo : simpl never.
Local Arguments tagWithBeets : simpl never.

(** X8. [readTags] fails only when ffprobe fails, and then with the
    error of ffprobe.  When ffprobe succeeds the read succeeds whatever
    was printed: output without tags gives empty metadata (the error of
    the JSON decoder is dropped), and with tags each field is the value
    of the lower-case key, or of the upper-case key when that is
    empty. *)
Theorem readTags_fails_only_with_ffprobe (s s1 : S) (path : string)
    (cmd : CmdResult) :
  h (Exec "ffprobe" ["-v"; "quiet"; "-print_format"; "json";
                     "-show_format"; path]) s = (cmd, s1) ->
  (forall e, result h s (readTags path) = Returned (None, Some e)
             <-> RunErr cmd = Some e) /\
  (RunErr cmd = None ->
   exists md,
     result h s (readTags path) = Returned (Some md, None) /\
     (UnmarshalTags (Stdout cmd) = None -> md = mkMusicMetadata "" "" "") /\
     (forall t, UnmarshalTags (Stdout cmd) = Some t ->
        Artist md = (if is_empty (tag t "artist") then tag t "ARTIST"
                     else tag t "artist") /\
        Album md = (if is_empty (tag t "album") then tag t "ALBUM"
                    else tag t "album") /\
        Title md = (if is_empty (tag t "title") then tag t "TITLE"
                    else tag t "title"))).
Proof.
  intros Hcmd. unfold result. unfold readTags. cbn. rewrite Hcmd.
  assert (Hfirst : forall a b,
            firstNonEmpty [a; b] = if is_empty a then b else a).
  { intros a b. rewrite !firstNonEmpty_cons.
    destruct (is_empty a); [|reflexivity].
    destruct (is_empty b) eqn:Hb; [|reflexivity].
    apply String.eqb_eq in Hb. now subst. }
  split.
  - intros e. destruct (RunErr cmd) as [err|]; cbn.
    + split; congruence.
    + destruct (UnmarshalTags (Stdout cmd)); cbn; split; discriminate.
  - intros ->. cbn. destruct (UnmarshalTags (Stdout cmd)) as [t|]; cbn.
    + eexists. split; [reflexivity|]. split; [discriminate|].
      intros t' [= <-]. cbn. now rewrite !Hfirst.
    + eexists. split; [reflexivity|]. split; [reflexivity | discriminate].
Qed.

Lemma audio_fold (dir : string) (entries : list FileInfo) (acc : list string) :
  fold_left
    (fun tracks e =>
       if IsDir e then tracks
       else
         let ext := ToLower (FilePath.Ext (Name e)) in
         if is_audio_ext ext
         then (tracks ++ [FilePath.Join [dir; Name e]])%list
         else tracks)
    entries acc
  = (acc ++ map (fun e => FilePath.Join [dir; Name e])
                (List.filter is_audio_entry entries))%list.
Proof.
  revert acc. induction entries as [|e entries IH]; intros acc; cbn.
  - now rewrite app_nil_r.
  - rewrite IH. unfold is_audio_entry at 2.
    destruct (IsDir e); cbn; [reflexivity|].
    destruct (is_audio_ext _); cbn; [|reflexivity].
    now rewrite <- app_assoc.
Qed.

(** X9. [getAudioFiles] returns the error of [os.ReadDir] and no track;
    without error it returns the paths of the entries that are no
    directories and whose extension is [.flac] or [.mp3] in any letter
    case, in the order of the directory, and no other path. *)
Theorem getAudioFiles_keeps_audio_entries (s s1 : S) (dir : string)
    (entries : list FileInfo) (err : option error) :
  h (ReadDir dir) s = ((entries, err), s1) ->
  result h s (getAudioFiles dir) =
  Returned
    match err with
    | Some e => ([], Some e)
    | None => (map (fun e => FilePath.Join [dir; Name e])
                   (List.filter is_audio_entry entries), None)
    end.
Proof.
  intros Hdir. unfold result, getAudioFiles. cbn. rewrite Hdir.
  destruct err; cbn; [reflexivity|]. now rewrite audio_fold.
Qed.

(** X10. [moveToLibrary] makes the directory of the sanitized artist and
    album below the library first.  When that fails it returns the error
    and renames nothing; otherwise it renames the file to its base name
    in that directory and returns what the rename returns. *)
Theorem moveToLibrary_renames_after_mkdir (s s1 : S) (libDir srcPath : string)
    (md : MusicMetadata) (made : option error) :
  let targetDir := FilePath.Join [libDir; sanitize (Artist md); sanitize (Album md)] in
  let dst := FilePath.Join [targetDir; FilePath.Base srcPath] in
  h (MkdirAll targetDir) s = (made, s1) ->
  match made with
  | Some e =>
      run h s (moveToLibrary libDir (Some md) srcPath)
      = ([Ev (MkdirAll targetDir) (Some e)], s1, Returned (Some e))
  | None =>
      calls (trace h s (moveToLibrary libDir (Some md) srcPath))
      = [MkdirAll targetDir; Rename srcPath dst] /\
      result h s (moveToLibrary libDir (Some md) srcPath)
      = Returned (fst (h (Rename srcPath dst) s1))
  end.
Proof.
  intros targetDir dst Hmk. unfold trace, result, moveToLibrary. cbn.
  fold targetDir. rewrite Hmk. destruct made as [e|]; cbn; [reflexivity|].
  fold dst. destruct (h (Rename srcPath dst) s1) as [r s2]. cbn. auto.
Qed.

(** X11. When the tag read that follows the tagging attempt succeeds
    with an artist and an album, [getAlbumMetadata] returns just these
    tags, whether the tagger failed or not, and does nothing after the
    tag read: MusicBrainz is not asked. *)
Theorem getAlbumMetadata_tagged_no_lookup (s0 : S) (albumPath trackPath : string)
    (md : MusicMetadata) :
  let s1 := final h s0 (tagWithBeets albumPath) in
  result h s1 (readTags trackPath) = Returned (Some md, None) ->
  Artist md <> "" -> Album md <> "" ->
  result h s0 (getAlbumMetadata albumPath trackPath) = Returned (Some md, None) /\
  trace h s0 (getAlbumMetadata albumPath trackPath)
  = (trace h s0 (tagWithBeets albumPath) ++ trace h s1 (readTags trackPath))%list.
Proof.
  intros s1 Htags Har Hal.
  apply not_empty_true in Har, Hal.
  assert (Hrun : run h s0 (getAlbumMetadata albumPath trackPath)
                 = ((trace h s0 (tagWithBeets albumPath)
                     ++ trace h s1 (readTags trackPath))%list,
                    final h s1 (readTags trackPath),
                    Returned (Some md, None))).
  { unfold getAlbumMetadata.
    rewrite run_mbind, (run_triple h s0 (tagWithBeets albumPath)).
    destruct (tagWithBeets_returns h s0 albumPath) as [berr ->]. fold s1.
    rewrite run_mbind, (run_triple h s1 (readTags trackPath)), Htags. cbn.
    rewrite Har, Hal. cbn. now rewrite !app_nil_r. }
  unfold result at 1, trace at 1. now rewrite Hrun.
Qed.

(** X12. [fetchMusicBrainzInfo], when the answer decodes to a first
    recording with a first release with an artist credit: an error of
    curl is returned before anything is decoded, then an error of the
    JSON decoder; without error the result is the title of the first
    recording, the title of its first release and the name of the first
    artist credit of that release, whatever else was returned. *)
Theorem fetchMusicBrainzInfo_first_candidate (s s1 : S) (filename : string)
    (cmd : CmdResult) (data : MBData) (decodeErr : option error)
    (r : MBRecording) (recordings : list MBRecording)
    (rel : MBRelease) (releases : list MBRelease)
    (credit : MBArtistCredit) (credits : list MBArtistCredit) :
  h (Exec "curl" ["-s"; mbURL filename]) s = (cmd, s1) ->
  UnmarshalMB (Stdout cmd) = (data, decodeErr) ->
  Recordings data = r :: recordings ->
  Releases r = rel :: releases ->
  ArtistCredit rel = credit :: credits ->
  result h s (fetchMusicBrainzInfo filename) =
  Returned
    match RunErr cmd, decodeErr with
    | Some e, _ => (None, Some e)
    | None, Some e => (None, Some e)
    | None, None =>
        (Some (mkMusicMetadata (CreditName credit) (ReleaseTitle rel)
                               (RecordingTitle r)), None)
    end.
Proof.
  intros Hcurl Hjson Hrec Hrel Hcredit.
  unfold result, fetchMusicBrainzInfo. cbn. rewrite Hcurl.
  destruct (RunErr cmd); cbn; [reflexivity|].
  rewrite Hjson. destruct decodeErr; cbn; [reflexivity|].
  rewrite Hrec. cbn. rewrite Hrel. cbn. rewrite Hcredit. reflexivity.
Qed.
End ImporterHelpers.

(** ffprobe prints tags with [artist], [ALBUM] and [title]: the read
    succeeds, and the album is taken from the upper-case key. *)
Lemma readTags_fails_only_with_ffprobe_witness :
  let h := stateless (Doubles.resolver_env (Doubles.ok "{tagged}") "") in
  h (Exec "ffprobe" ["-v"; "quiet"; "-print_format"; "json";
                     "-show_format"; "t/x.flac"]) tt
  = (Doubles.ok "{tagged}", tt) /\
  (forall e, result h tt (@readTags Doubles.decoders "t/x.flac")
             = Returned (None, Some e) <-> None = Some e) /\
  exists md,
    result h tt (@readTags Doubles.decoders "t/x.flac") = Returned (Some md, None) /\
    Album md = "Bar".
Proof.
  intros h. split; [reflexivity|].
  destruct (@readTags_fails_only_with_ffprobe Doubles.decoders unit h tt tt
              "t/x.flac" (Doubles.ok "{tagged}") eq_refl) as [Hfail Hok].
  split; [exact Hfail|].
  destruct (Hok eq_refl) as (md & Hres & _ & Htags).
  exists md. split; [exact Hres|].
  destruct (Htags _ eq_refl) as (_ & Halbum & _). exact Halbum.
Defined.

(** The album of two MP3 tracks and a cover: the two tracks, in the
    order of the directory. *)
Lemma getAudioFiles_keeps_audio_entries_witness :
  let h := stateless (Doubles.album_env "") in
  let entries := [mkFileInfo "a.mp3" false; mkFileInfo "b.mp3" false;
                  mkFileInfo "cover.jpg" false] in
  h (ReadDir "/in/A") tt = ((entries, None), tt) /\
  result h tt (getAudioFiles "/in/A")
  = Returned (["/in/A/a.mp3"; "/in/A/b.mp3"], None).
Proof.
  intros h entries. split; [reflexivity|].
  rewrite (getAudioFiles_keeps_audio_entries h tt tt "/in/A" entries None eq_refl).
  reflexivity.
Defined.

(** A track of the album is moved below [/lib/Foo Fighters/Bar]. *)
Lemma moveToLibrary_renames_after_mkdir_witness :
  let h := stateless (Doubles.album_env "") in
  let md := mkMusicMetadata "Foo Fighters" "Bar" "Song" in
  h (MkdirAll "/lib/Foo Fighters/Bar") tt = (None, tt) /\
  calls (trace h tt (moveToLibrary "/lib" (Some md) "/in/A/a.mp3"))
  = [MkdirAll "/lib/Foo Fighters/Bar";
     Rename "/in/A/a.mp3" "/lib/Foo Fighters/Bar/a.mp3"].
Proof.
  intros h md. split; [reflexivity|].
  exact (proj1 (moveToLibrary_renames_after_mkdir h tt tt "/lib" "/in/A/a.mp3"
                  md None eq_refl)).
Defined.

(** The tagger fails, the track is tagged with artist and album: the
    tags are the result, and MusicBrainz is not asked. *)
Lemma getAlbumMetadata_tagged_no_lookup_witness :
  let h := stateless (Doubles.resolver_env (Doubles.ok "{tagged}") "{foo-bar}") in
  let md := mkMusicMetadata "Foo Fighters" "Bar" "Song" in
  result h tt (@readTags Doubles.decoders "t/x.flac") = Returned (Some md, None) /\
  Artist md <> "" /\ Album md <> "" /\
  result h tt (@getAlbumMetadata Doubles.decoders "t" "t/x.flac")
  = Returned (Some md, None) /\
  trace h tt (@getAlbumMetadata Doubles.decoders "t" "t/x.flac")
  = (trace h tt (tagWithBeets "t")
     ++ trace h tt (@readTags Doubles.decoders "t/x.flac"))%list.
Proof.
  intros h md.
  assert (Ha : Artist md <> "") by discriminate.
  assert (Hb : Album md <> "") by discriminate.
  split; [reflexivity|]. split; [exact Ha|]. split; [exact Hb|].
  exact (@getAlbumMetadata_tagged_no_lookup Doubles.decoders unit h tt
           "t" "t/x.flac" md eq_refl Ha Hb).
Defined.

(** MusicBrainz knows one recording [Song] on the release [Bar] by
    [Foo]. *)
Lemma fetchMusicBrainzInfo_first_candidate_witness :
  let h := stateless (Doubles.resolver_env (Doubles.ok "") "{foo-bar}") in
  let credit := mkMBArtistCredit "Foo" in
  let rel := mkMBRelease "Bar" [credit] in
  let r := mkMBRecording "Song" [rel] in
  h (Exec "curl" ["-s"; @mbURL Doubles.decoders "t/x.flac"]) tt
  = (Doubles.ok "{foo-bar}", tt) /\
  @UnmarshalMB Doubles.decoders "{foo-bar}" = (mkMBData [r], None) /\
  result h tt (@fetchMusicBrainzInfo Doubles.decoders "t/x.flac")
  = Returned (Some (mkMusicMetadata "Foo" "Bar" "Song"), None).
Proof.
  intros h credit rel r. split; [reflexivity|]. split; [reflexivity|].
  exact (@fetchMusicBrainzInfo_first_candidate Doubles.decoders unit h tt tt
           "t/x.flac" (Doubles.ok "{foo-bar}") (mkMBData [r]) None
           r [] rel [] credit [] eq_refl eq_refl eq_refl eq_refl eq_refl).
Defined.


(* ===================================================================== *)
(** * More on package [media]                                             *)
(* ===================================================================== *)

Section MediaFacts.
Context {S : Type} (h : Handler S).
Import GoStrings.

Lemma prefix_head (a : ascii) (p s : string) :
  String.prefix (String a p) s = true -> exists d, s = String a d.
Proof.
  destruct s as [|b d]; [discriminate|]. cbn [String.prefix].
  destruct (ascii_dec a b) as [->|]; [eauto | discriminate].
Qed.

(** X13. [guessMimeType] answers [image/png] exactly for data that begins
    with the four bytes of the PNG signature, and [image/jpeg] for all
    other data, also for data that is no image. *)
Theorem guessMimeType_png_or_jpeg (data : string) :
  (Media.guessMimeType data = "image/png" <->
   HasPrefix data (of_bytes ["137"; "080"; "078"; "071"]%char) = true) /\
  (Media.guessMimeType data = "image/png" \/
   Media.guessMimeType data = "image/jpeg").
Proof.
  unfold Media.guessMimeType.
  match goal with
  | |- context [if ?j then "image/jpeg" else if ?p then _ else _] =>
      destruct j eqn:Hj; destruct p eqn:Hp
  end.
  - exfalso. unfold HasPrefix in *.
    apply prefix_head in Hj as [d ->]. apply prefix_head in Hp as [d' Hd].
    discriminate Hd.
  - split; [split; discriminate | right; reflexivity].
  - split; [split; intros; reflexivity | left; reflexivity].
  - split; [split; discriminate | right; reflexivity].
Qed.

Lemma find_first {A : Type} (f : A -> bool) (l : list A) :
  match List.find f l with
  | Some x => exists before after,
      l = (before ++ x :: after)%list /\ f x = true /\
      Forall (fun y => f y = false) before
  | None => Forall (fun y => f y = false) l
  end.
Proof.
  induction l as [|a l IH]; cbn; [constructor|].
  destruct (f a) eqn:Ha.
  - exists [], l. repeat split; [exact Ha | constructor].
  - destruct (List.find f l) as [x|].
    + destruct IH as (before & after & -> & Hx & Hb).
      exists (a :: before), after. repeat split; [exact Hx | now constructor].
    + now constructor.
Qed.

(** X14. [FindCoverImage] returns the path of the first entry of the
    directory that is a cover (no directory, lower-cased name among
    [coverNames]); when no entry is one, it returns the error that names
    the directory.  An error of [os.ReadDir] plays no part. *)
Theorem FindCoverImage_first_cover (s s1 : S) (dir : string)
    (entries : list FileInfo) (readErr : option error) :
  h (ReadDir dir) s = ((entries, readErr), s1) ->
  (exists before e after,
     entries = (before ++ e :: after)%list /\
     Media.is_cover e = true /\
     Forall (fun x => Media.is_cover x = false) before /\
     result h s (Media.FindCoverImage dir)
     = Returned (FilePath.Join [dir; Name e], None)) \/
  (Forall (fun x => Media.is_cover x = false) entries /\
   result h s (Media.FindCoverImage dir)
   = Returned ("", Some (ErrNew ("no cover image found in " ++ dir)))).
Proof.
  intros Hdir. unfold result, Media.FindCoverImage. cbn. rewrite Hdir.
  pose proof (find_first Media.is_cover entries) as Hfind.
  destruct (List.find Media.is_cover entries) as [e|]; cbn.
  - left. destruct Hfind as (before & after & Heq & He & Hb).
    exists before, e, after. auto.
  - right. auto.
Qed.

(** X15. [embedCoverMP3]: when the file cannot be opened, the wrapped
    error is returned and nothing else is done.  When it is opened, the
    picture is saved as front cover with the guessed MIME type and the
    tag is closed after that, also when the save fails; the result is
    the wrapped error of the save. *)
Theorem embedCoverMP3_closes_tag (s s1 : S) (path cover : string)
    (opened : option error) :
  let pic := mkPictureFrame (Media.guessMimeType cover) Media.PTFrontCover
                            "Cover" cover in
  h (ID3Open path) s = (opened, s1) ->
  match opened with
  | Some e =>
      run h s (Media.embedCoverMP3 path cover)
      = ([Ev (ID3Open path) (Some e)], s1, Returned (Some (ErrWrap "mp3 open" e)))
  | None =>
      calls (trace h s (Media.embedCoverMP3 path cover))
      = [ID3Open path; ID3Save path pic; ID3Close path] /\
      result h s (Media.embedCoverMP3 path cover)
      = Returned match fst (h (ID3Save path pic) s1) with
                 | Some e => Some (ErrWrap "mp3 save" e)
                 | None => None
                 end
  end.
Proof.
  intros pic Hopen. unfold trace, result, Media.embedCoverMP3. cbn.
  rewrite Hopen. destruct opened as [e|]; cbn; [reflexivity|].
  fold pic. destruct (h (ID3Save path pic) s1) as [[e|] s2]; cbn;
    destruct (h (ID3Close path) s2) as [[] s3]; cbn; auto.
Qed.

(** X16. Once [embedCoverFLAC] has created its temporary file, it closes
    and removes that file as its last two effects on every path:
    whether the write, the sync or [metaflac] fail or not. *)
Theorem embedCoverFLAC_removes_temp_file (s s1 s2 : S) (path cover tmpPath : string) :
  h (LookPath "metaflac") s = (None, s1) ->
  h (CreateTemp "" "cover-*.img") s1 = ((tmpPath, None), s2) ->
  exists before,
    calls (trace h s (Media.embedCoverFLAC path cover))
    = (before ++ [TmpClose tmpPath; Remove tmpPath])%list.
Proof.
  intros Hlook Htemp. unfold trace, Media.embedCoverFLAC. cbn.
  rewrite Hlook. cbn. rewrite Htemp. cbn.
  destruct (h (TmpWrite tmpPath cover) s2) as [[e|] s3]; cbn.
  { destruct (h (TmpClose tmpPath) s3) as [[] s4]; cbn.
    destruct (h (Remove tmpPath) s4) as [r s5]; cbn.
    now exists [LookPath "metaflac"; CreateTemp "" "cover-*.img";
                TmpWrite tmpPath cover]. }
  destruct (h (TmpSync tmpPath) s3) as [[e|] s4]; cbn.
  { destruct (h (TmpClose tmpPath) s4) as [[] s5]; cbn.
    destruct (h (Remove tmpPath) s5) as [r s6]; cbn.
    now exists [LookPath "metaflac"; CreateTemp "" "cover-*.img";
                TmpWrite tmpPath cover; TmpSync tmpPath]. }
  destruct (h (Exec "metaflac" ["--remove"; _; _]) s4) as [r1 s5]; cbn.
  destruct (h (Exec "metaflac" [_; _]) s5) as [r2 s6]; cbn.
  destruct (RunErr r2); cbn;
    destruct (h (TmpClose tmpPath) s6) as [[] s7]; cbn;
    destruct (h (Remove tmpPath) s7) as [r s8]; cbn;
    now exists [LookPath "metaflac"; CreateTemp "" "cover-*.img";
                TmpWrite tmpPath cover; TmpSync tmpPath;
                Exec "metaflac" ["--remove"; "--block-type=PICTURE"; path];
                Exec "metaflac" ["--import-picture-from=" ++ tmpPath; path]].
Qed.

(** X17. In [embedCoverFLAC] the outcome of [metaflac --remove] plays no
    part: when the temporary file is written and synced, the function
    returns an error exactly when the import of the picture fails. *)
Theorem embedCoverFLAC_ignores_failed_removal (s s1 s2 s3 s4 s5 s6 : S)
    (path cover tmpPath : string) (removed imported : CmdResult) :
  h (LookPath "metaflac") s = (None, s1) ->
  h (CreateTemp "" "cover-*.img") s1 = ((tmpPath, None), s2) ->
  h (TmpWrite tmpPath cover) s2 = (None, s3) ->
  h (TmpSync tmpPath) s3 = (None, s4) ->
  h (Exec "metaflac" ["--remove"; "--block-type=PICTURE"; path]) s4 = (removed, s5) ->
  h (Exec "metaflac" ["--import-picture-from=" ++ tmpPath; path]) s5 = (imported, s6) ->
  exists r,
    result h s (Media.embedCoverFLAC path cover) = Returned r /\
    (r = None <-> RunErr imported = None).
Proof.
  intros Hlook Htemp Hwrite Hsync Hremove Himport.
  unfold result, Media.embedCoverFLAC. cbn.
  rewrite Hlook. cbn. rewrite Htemp. cbn. rewrite Hwrite. cbn.
  rewrite Hsync. cbn. rewrite Hremove. cbn. rewrite Himport. cbn.
  destruct (RunErr imported); cbn;
    destruct (h (TmpClose tmpPath) s6) as [[] s7]; cbn;
    destruct (h (Remove tmpPath) s7) as [r s8]; cbn;
    eexists; (split; [reflexivity|]); split; congruence.
Qed.

(** X18. [EmbedAlbumArtIntoFolder]: when no cover image is found, it does
    nothing more and returns no error; when the cover is found and
    cannot be read, it returns the wrapped read error and does not walk
    the album. *)
Theorem EmbedAlbumArtIntoFolder_without_usable_cover (s s1 : S)
    (albumDir coverFile : string) (found : option error) (tr : list event) :
  run h s (Media.FindCoverImage albumDir) = (tr, s1, Returned (coverFile, found)) ->
  (found <> None ->
   run h s (Media.EmbedAlbumArtIntoFolder albumDir) = (tr, s1, Returned None)) /\
  (found = None ->
   forall data e s2,
     h (ReadFile coverFile) s1 = ((data, Some e), s2) ->
     run h s (Media.EmbedAlbumArtIntoFolder albumDir)
     = ((tr ++ [Ev (ReadFile coverFile) (data, Some e)])%list, s2,
        Returned (Some (ErrWrap "failed to read cover image" e)))).
Proof.
  intros Hfind. unfold Media.EmbedAlbumArtIntoFolder.
  rewrite run_mbind, Hfind. split.
  - intros Hf. destruct found; [|contradiction]. cbn. now rewrite app_nil_r.
  - intros -> data e s2 Hread. cbn. rewrite Hread. reflexivity.
Qed.
End MediaFacts.

(** The album of two MP3 tracks and a cover: the cover is found after
    the two tracks, which are no covers. *)
Lemma FindCoverImage_first_cover_witness :
  let h := stateless (Doubles.album_env "") in
  let entries := [mkFileInfo "a.mp3" false; mkFileInfo "b.mp3" false;
                  mkFileInfo "cover.jpg" false] in
  h (ReadDir "/in/A") tt = ((entries, None), tt) /\
  exists before e after,
    entries = (before ++ e :: after)%list /\
    Media.is_cover e = true /\
    Forall (fun x => Media.is_cover x = false) before /\
    result h tt (Media.FindCoverImage "/in/A")
    = Returned (FilePath.Join ["/in/A"; Name e], None).
Proof.
  intros h entries. split; [reflexivity|].
  destruct (FindCoverImage_first_cover h tt tt "/in/A" entries None eq_refl)
    as [Hfound | [Hnone _]]; [exact Hfound|].
  exfalso. inversion Hnone as [|? ? _ Hrest]. inversion Hrest as [|? ? _ Hlast].
  inversion Hlast as [|? ? Hcover _]. discriminate Hcover.
Defined.

(** A track that can be opened and saved: open, save, close. *)
Lemma embedCoverMP3_closes_tag_witness :
  let h := stateless (Doubles.album_env "") in
  let pic := mkPictureFrame "image/jpeg" Media.PTFrontCover "Cover" "JPEG" in
  h (ID3Open "/in/A/a.mp3") tt = (None, tt) /\
  calls (trace h tt (Media.embedCoverMP3 "/in/A/a.mp3" "JPEG"))
  = [ID3Open "/in/A/a.mp3"; ID3Save "/in/A/a.mp3" pic; ID3Close "/in/A/a.mp3"] /\
  result h tt (Media.embedCoverMP3 "/in/A/a.mp3" "JPEG") = Returned None.
Proof.
  intros h pic. split; [reflexivity|].
  exact (embedCoverMP3_closes_tag h tt tt "/in/A/a.mp3" "JPEG" None eq_refl).
Defined.

(** A machine with [metaflac]: the temporary file is closed and removed
    at the end. *)
Lemma embedCoverFLAC_removes_temp_file_witness :
  let h := stateless Doubles.flac_env in
  h (LookPath "metaflac") tt = (None, tt) /\
  h (CreateTemp "" "cover-*.img") tt = (("/tmp/cover-1.img", None), tt) /\
  exists before,
    calls (trace h tt (Media.embedCoverFLAC "/in/A/b.flac" "JPEG"))
    = (before ++ [TmpClose "/tmp/cover-1.img"; Remove "/tmp/cover-1.img"])%list.
Proof.
  intros h. split; [reflexivity|]. split; [reflexivity|].
  exact (embedCoverFLAC_removes_temp_file h tt tt tt "/in/A/b.flac" "JPEG"
           "/tmp/cover-1.img" eq_refl eq_refl).
Defined.

(** The removal of the old pictures fails and the import succeeds: no
    error. *)
Lemma embedCoverFLAC_ignores_failed_removal_witness :
  let h := stateless Doubles.flac_env in
  let tmpPath := "/tmp/cover-1.img" in
  let path := "/in/A/b.flac" in
  h (LookPath "metaflac") tt = (None, tt) /\
  h (CreateTemp "" "cover-*.img") tt = ((tmpPath, None), tt) /\
  h (TmpWrite tmpPath "JPEG") tt = (None, tt) /\
  h (TmpSync tmpPath) tt = (None, tt) /\
  h (Exec "metaflac" ["--remove"; "--block-type=PICTURE"; path]) tt
  = (mkCmdResult "" "" Doubles.failed, tt) /\
  h (Exec "metaflac" ["--import-picture-from=" ++ tmpPath; path]) tt
  = (Doubles.ok "", tt) /\
  result h tt (Media.embedCoverFLAC path "JPEG") = Returned None.
Proof.
  intros h tmpPath path. repeat (split; [reflexivity|]).
  destruct (embedCoverFLAC_ignores_failed_removal h tt tt tt tt tt tt tt
              path "JPEG" tmpPath (mkCmdResult "" "" Doubles.failed) (Doubles.ok "")
              eq_refl eq_refl eq_refl eq_refl eq_refl eq_refl)
    as (r & Hres & Hiff).
  rewrite Hres. f_equal. apply Hiff. reflexivity.
Defined.

(** A folder without cover: nothing is embedded and no error is
    returned.  A folder whose cover cannot be read: the read error is
    returned. *)
Lemma EmbedAlbumArtIntoFolder_without_usable_cover_witness :
  let h := stateless Doubles.nothing in
  let h' := stateless (Doubles.folder_env [mkFileInfo "Cover.JPG" false]
                                          (Doubles.ok "")) in
  (run h tt (Media.FindCoverImage "/in/A")
   = (trace h tt (Media.FindCoverImage "/in/A"), tt,
      Returned ("", Some (ErrNew "no cover image found in /in/A"))) /\
   run h tt (Media.EmbedAlbumArtIntoFolder "/in/A")
   = ([Ev (ReadDir "/in/A") ([], Doubles.missing)], tt, Returned None)) /\
  (run h' tt (Media.FindCoverImage "/in/A")
   = (trace h' tt (Media.FindCoverImage "/in/A"), tt,
      Returned ("/in/A/Cover.JPG", None)) /\
   h' (ReadFile "/in/A/Cover.JPG") tt = (("", Doubles.missing), tt) /\
   result h' tt (Media.EmbedAlbumArtIntoFolder "/in/A")
   = Returned (Some (ErrWrap "failed to read cover image"
                       (ErrExt "no such file or directory")))).
Proof.
  intros h h'. split.
  - split; [reflexivity|].
    rewrite (proj1 (EmbedAlbumArtIntoFolder_without_usable_cover h tt tt
                      "/in/A" "" _ _ eq_refl)); [reflexivity | discriminate].
  - split; [reflexivity|]. split; [reflexivity|].
    unfold result.
    rewrite (proj2 (EmbedAlbumArtIntoFolder_without_usable_cover h' tt tt
                      "/in/A" "/in/A/Cover.JPG" None _ eq_refl)
               eq_refl "" (ErrExt "no such file or directory") tt eq_refl).
    reflexivity.
Defined.


(* ===================================================================== *)
(** * More on the lyrics step                                             *)
(* ===================================================================== *)

Ltac writes_step :=
  match goal with
  | |- forall _, _ => intros ?
  | |- performs_only _ (Ret _) => exact I
  | |- performs_only _ (mret _) => exact I
  | |- performs_only _ (Panic _) => exact I
  | |- performs_only _ (deref _) => apply performs_only_deref
  | |- performs_only _ (trigger _) =>
      apply performs_only_trigger; first [exact I | reflexivity]
  | |- performs_only _ (Vis _ _) => split; [first [exact I | reflexivity] |]
  | |- performs_only _ (defer _ _) => apply performs_only_defer
  | |- performs_only _ (bind _ _) => apply performs_only_bind
  | |- performs_only _ (_ ≫= _) => apply performs_only_mbind
  | |- performs_only _ ((fun _ => _) _) => cbn beta
  | |- performs_only _ (match ?x with _ => _ end) => destruct x
  end.

Section LyricsStep.
Context `{Decoders} {S : Type} (h : Handler S).
Import GoStrings.
Local Arguments readTags : simpl never.
Local Arguments TrackDuration : simpl never.
Local Arguments fetchLRCLibLyrics : simpl never.

Lemma TrackDuration_returns (s : S) (path : string) :
  exists v, result h s (TrackDuration path) = Returned v.
Proof.
  unfold result, TrackDuration. cbn.
  destruct (h (Exec _ _) s) as [cmd s1].
  destruct (RunErr cmd); cbn; [eauto|].
  destruct (is_empty _); cbn; [eauto|].
  destruct (ParseFloat _) as [f [e|]]; cbn; eauto.
Qed.

(** X19. The lyrics step for an audio track without sidecar whose tags
    cannot be read, or lack the title, the artist or the album: it
    returns no error and does nothing after the tag read; the duration
    is not probed and the provider is not asked. *)
Theorem lyricsWalkFn_incomplete_tags_no_query (s s1 : S) (path : string)
    (info : FileInfo) (serr : error) :
  audio_track info ->
  h (Stat (lrcPathOf path info)) s = (Some serr, s1) ->
  tags_incomplete (result h s1 (readTags path)) ->
  run h s (lyricsWalkFn path (Some info) None)
  = (Ev (Stat (lrcPathOf path info)) (Some serr) :: trace h s1 (readTags path),
     final h s1 (readTags path), Returned None).
Proof.
  intros Ha Hstat Htags. apply audio_track_ext in Ha as [Hd Hext].
  unfold lyricsWalkFn. cbn. rewrite Hd, Hext. cbn.
  unfold lrcPathOf in *. rewrite Hstat. cbn.
  rewrite run_mbind, (run_triple h s1 (readTags path)).
  destruct (readTags_returns h s1 path) as [[e Hr] | [md Hr]];
    rewrite Hr in *; cbn; [now rewrite app_nil_r|].
  cbn in Htags. unfold is_empty.
  destruct Htags as [-> | [-> | ->]]; cbn;
    rewrite ?orb_true_r; cbn; now rewrite app_nil_r.
Qed.

(** X20. The lyrics step for one file never overwrites: when it writes a
    file, that file is the sidecar of the track, and the step began by
    looking for that file and not finding it. *)
Theorem lyricsWalkFn_never_overwrites (s : S) (path : string) (info : FileInfo)
    (name data : string) :
  In (WriteFile name data)
     (calls (trace h s (lyricsWalkFn path (Some info) None))) ->
  name = lrcPathOf path info /\
  exists e rest,
    trace h s (lyricsWalkFn path (Some info) None)
    = Ev (Stat name) (Some e) :: rest.
Proof.
  unfold trace, lyricsWalkFn, lrcPathOf. cbn.
  destruct (IsDir info); [intros []|].
  destruct (_ && _); [intros []|].
  set (lrcPath := TrimSuffix path (ToLower (FilePath.Ext (Name info))) ++ ".lrc").
  cbn. destruct (h (Stat lrcPath) s) as [[e|] s1]; cbn.
  - match goal with
    | |- context [run h s1 ?p] =>
        assert (Hp : performs_only (writes_only_to lrcPath) p)
    end.
    { unfold readTags, TrackDuration, fetchLRCLibLyrics. repeat writes_step. }
    apply (performs_only_trace _ h s1) in Hp. unfold calls, trace in Hp.
    destruct (run h s1 _) as [[tr s2] o]. cbn in *.
    intros [Hin | Hin]; [discriminate|].
    rewrite List.Forall_forall in Hp. apply Hp in Hin.
    cbn in Hin. subst name. eauto.
  - intros [Hin | []]. discriminate.
Qed.

(** X21. The only error that the lyrics step for one file returns is the
    wrapped error of writing the sidecar: a failed tag read, a failed
    probe and a failed download all end the step without error, so the
    walk goes on to the next file. *)
Theorem lyricsWalkFn_only_write_error (s : S) (path : string) (info : FileInfo) :
  result h s (lyricsWalkFn path (Some info) None) = Returned None \/
  exists werr,
    result h s (lyricsWalkFn path (Some info) None)
    = Returned (Some (ErrWrap ("writing lrc file for " ++ path) werr)).
Proof.
  unfold result, lyricsWalkFn. cbn.
  destruct (IsDir info); [left; reflexivity|].
  destruct (_ && _); [left; reflexivity|]. cbn.
  match goal with
  | |- context [h (Stat ?p) s] => destruct (h (Stat p) s) as [[e|] s1]
  end; cbn; [|left; reflexivity].
  rewrite run_mbind, (run_triple h s1 (readTags path)).
  destruct (readTags_returns h s1 path) as [[e' ->] | [md ->]]; cbn;
    [left; reflexivity|].
  destruct (_ || _); cbn; [left; reflexivity|].
  rewrite run_mbind, (run_triple h _ (TrackDuration path)).
  destruct (TrackDuration_returns (final h s1 (readTags path)) path)
    as [[d derr] ->]. cbn.
  rewrite run_mbind.
  match goal with
  | |- context [run h ?s' (fetchLRCLibLyrics ?a ?t ?al ?du)] =>
      destruct (fetchLRCLibLyrics_shape h s' a t al du)
        as (answer & rest & [lyrics err] & Htr & Hres);
      rewrite (run_triple h s' (fetchLRCLibLyrics a t al du)), Hres
  end.
  destruct err; cbn; [left; reflexivity|].
  destruct (h (WriteFile _ _) _) as [[werr|] s5]; cbn;
    [right; eexists; reflexivity | left; reflexivity].
Qed.
End LyricsStep.

(** A track without sidecar whose tags have no artist: after the look
    for the sidecar and the tag read, nothing more is done. *)
Lemma lyricsWalkFn_incomplete_tags_no_query_witness :
  let h := stateless (Doubles.resolver_env (Doubles.ok "{no-artist}") "") in
  let info := mkFileInfo "x.flac" false in
  audio_track info /\
  h (Stat (lrcPathOf "t/x.flac" info)) tt = (Doubles.missing, tt) /\
  tags_incomplete (result h tt (@readTags Doubles.decoders "t/x.flac")) /\
  calls (trace h tt (@lyricsWalkFn Doubles.decoders "t/x.flac" (Some info) None))
  = [Stat "t/x.lrc";
     Exec "ffprobe" ["-v"; "quiet"; "-print_format"; "json"; "-show_format";
                     "t/x.flac"]].
Proof.
  intros h info.
  assert (Ha : audio_track info) by (split; [reflexivity | right; reflexivity]).
  assert (Ht : tags_incomplete (result h tt (@readTags Doubles.decoders "t/x.flac")))
    by (right; left; reflexivity).
  split; [exact Ha|]. split; [reflexivity|]. split; [exact Ht|].
  unfold trace.
  rewrite (@lyricsWalkFn_incomplete_tags_no_query Doubles.decoders unit h tt tt
             "t/x.flac" info (ErrExt "no such file or directory") Ha eq_refl Ht).
  reflexivity.
Defined.

(** A tagged track without sidecar, and a provider with plain lyrics:
    the file written is the sidecar, and the first effect was the look
    for it, which failed. *)
Lemma lyricsWalkFn_never_overwrites_witness :
  let h := stateless (Doubles.lyrics_env "200.0" "{plain}") in
  let info := mkFileInfo "b.flac" false in
  let data := "[00:00.00] Line1" ++ Doubles.newline ++
              "[00:00.00] Line2" ++ Doubles.newline in
  In (WriteFile "album/b.lrc" data)
     (calls (trace h tt (@lyricsWalkFn Doubles.decoders "album/b.flac" (Some info) None))) /\
  "album/b.lrc" = lrcPathOf "album/b.flac" info /\
  exists e rest,
    trace h tt (@lyricsWalkFn Doubles.decoders "album/b.flac" (Some info) None)
    = Ev (Stat "album/b.lrc") (Some e) :: rest.
Proof.
  intros h info data.
  assert (Hin : In (WriteFile "album/b.lrc" data)
                   (calls (trace h tt (@lyricsWalkFn Doubles.decoders "album/b.flac"
                                         (Some info) None)))).
  { vm_compute. do 5 right. left. reflexivity. }
  split; [exact Hin|].
  exact (@lyricsWalkFn_never_overwrites Doubles.decoders unit h tt
           "album/b.flac" info "album/b.lrc" data Hin).
Defined.


(* ===================================================================== *)
(** * More on the importer                                                *)
(* ===================================================================== *)

Section ImporterRuns.
Context `{Decoders} {S : Type} (h : Handler S).
Import GoStrings.
Local Arguments getAudioFiles : simpl never.
Local Arguments getAlbumMetadata : simpl never.
Local Arguments applyReplayGain : simpl never.
Local Arguments moveToLibrary : simpl never.
Local Arguments Media.EmbedAlbumArtIntoFolder : simpl never.
Local Arguments Media.FindCoverImage : simpl never.
Local Arguments FilePath.Join : simpl never.
Local Arguments for_each : simpl never.

(** X22. [RunImporter] reads the two environment variables.  When one of
    them is empty it returns at once; when both are set and the import
    directory cannot be read it returns after the failed read.  In both
    cases nothing is tagged, moved or removed. *)
Theorem RunImporter_stops_without_configuration (s s1 s2 : S)
    (importDir libraryDir : string) :
  h (Getenv "IMPORT_DIR") s = (importDir, s1) ->
  h (Getenv "LIBRARY_DIR") s1 = (libraryDir, s2) ->
  let asked := [Ev (Getenv "IMPORT_DIR") importDir;
                Ev (Getenv "LIBRARY_DIR") libraryDir] in
  (importDir = "" \/ libraryDir = "" ->
   run h s RunImporter = (asked, s2, Returned tt)) /\
  (importDir <> "" -> libraryDir <> "" ->
   forall entries e s3,
     h (ReadDir importDir) s2 = ((entries, Some e), s3) ->
     run h s RunImporter
     = ((asked ++ [Ev (ReadDir importDir) (entries, Some e)])%list, s3,
        Returned tt)).
Proof.
  intros Hi Hl asked. unfold RunImporter. cbn. rewrite Hi, Hl. split.
  - intros Hempty.
    assert (is_empty importDir || is_empty libraryDir = true) as ->.
    { destruct Hempty as [-> | ->]; cbn; [reflexivity | apply orb_true_r]. }
    reflexivity.
  - intros Hni Hnl entries e s3 Hdir.
    apply not_empty_true in Hni, Hnl.
    apply negb_true_iff in Hni, Hnl. rewrite Hni, Hnl. cbn.
    rewrite Hdir. reflexivity.
Qed.

(** X23. The loop body of [RunImporter] for an album with at least one
    track: when the metadata cannot be resolved, the album is left after
    the resolution; when it is resolved and the gain tool fails, the
    album is left after the gain tool.  In both cases nothing is
    embedded, moved or removed, and the body returns, so the run goes
    on. *)
Theorem importEntry_first_failure_ends_album (s s1 s2 : S)
    (importDir libraryDir : string) (e : FileInfo)
    (track : string) (tracks : list string)
    (md : option MusicMetadata) (failed : option error)
    (tr1 tr2 : list event) :
  let albumPath := FilePath.Join [importDir; Name e] in
  IsDir e = true ->
  run h s (getAudioFiles albumPath) = (tr1, s1, Returned (track :: tracks, None)) ->
  run h s1 (getAlbumMetadata albumPath track) = (tr2, s2, Returned (md, failed)) ->
  (failed <> None ->
   run h s (importEntry importDir libraryDir e)
   = ((tr1 ++ tr2)%list, s2, Returned tt)) /\
  (failed = None ->
   forall tr3 s3 gainErr,
     run h s2 (applyReplayGain albumPath) = (tr3, s3, Returned (Some gainErr)) ->
     run h s (importEntry importDir libraryDir e)
     = ((tr1 ++ tr2 ++ tr3)%list, s3, Returned tt)).
Proof.
  intros albumPath Hd Ha Hm.
  unfold importEntry. rewrite Hd. cbn [negb]. fold albumPath.
  rewrite run_mbind, Ha. cbn. rewrite run_mbind, Hm. split.
  - intros Hf. destruct failed; [|contradiction]. cbn. now rewrite !app_nil_r.
  - intros -> tr3 s3 gainErr Hg. cbn. rewrite run_mbind, Hg. cbn.
    now rewrite !app_nil_r.
Qed.

(** X24. The loop body of [RunImporter] has no effect at all for an entry
    that is no directory; for a directory that cannot be scanned or
    holds no audio file, its only effects are those of the scan. *)
Theorem importEntry_leaves_other_entries_alone (s s1 : S)
    (importDir libraryDir : string) (e : FileInfo)
    (tracks : list string) (scanErr : option error) (tr1 : list event) :
  let albumPath := FilePath.Join [importDir; Name e] in
  (IsDir e = false ->
   run h s (importEntry importDir libraryDir e) = ([], s, Returned tt)) /\
  (IsDir e = true ->
   run h s (getAudioFiles albumPath) = (tr1, s1, Returned (tracks, scanErr)) ->
   scanErr <> None \/ tracks = [] ->
   run h s (importEntry importDir libraryDir e) = (tr1, s1, Returned tt)).
Proof.
  intros albumPath. unfold importEntry. split.
  - intros ->. reflexivity.
  - intros -> Ha Hnone. cbn [negb]. fold albumPath.
    rewrite run_mbind, Ha.
    destruct Hnone as [Herr | ->].
    + destruct scanErr; [|contradiction]. cbn. now rewrite app_nil_r.
    + destruct scanErr; cbn; now rewrite app_nil_r.
Qed.




End ImporterRuns.

(** Nothing is configured: the run ends after the two look-ups.  The
    import directory is configured and cannot be read: the run ends
    after the failed read. *)
Lemma RunImporter_stops_without_configuration_witness :
  let h := stateless Doubles.nothing in
  let h' := stateless (Doubles.configured_env "/in" "/lib") in
  (h (Getenv "IMPORT_DIR") tt = ("", tt) /\
   h (Getenv "LIBRARY_DIR") tt = ("", tt) /\
   run h tt (@RunImporter Doubles.decoders)
   = ([Ev (Getenv "IMPORT_DIR") ""; Ev (Getenv "LIBRARY_DIR") ""], tt,
      Returned tt)) /\
  (h' (Getenv "IMPORT_DIR") tt = ("/in", tt) /\
   h' (Getenv "LIBRARY_DIR") tt = ("/lib", tt) /\
   h' (ReadDir "/in") tt = (([], Doubles.missing), tt) /\
   run h' tt (@RunImporter Doubles.decoders)
   = ([Ev (Getenv "IMPORT_DIR") "/in"; Ev (Getenv "LIBRARY_DIR") "/lib";
       Ev (ReadDir "/in") ([], Doubles.missing)], tt, Returned tt)).
Proof.
  intros h h'. split.
  - split; [reflexivity|]. split; [reflexivity|].
    apply (proj1 (@RunImporter_stops_without_configuration Doubles.decoders unit
                    h tt tt tt "" "" eq_refl eq_refl)).
    left. reflexivity.
  - split; [reflexivity|]. split; [reflexivity|]. split; [reflexivity|].
    apply (proj2 (@RunImporter_stops_without_configuration Doubles.decoders unit
                    h' tt tt tt "/in" "/lib" eq_refl eq_refl));
      [discriminate | discriminate | reflexivity].
Defined.

(** An album with one track.  When no tool works, the resolution of the
    metadata fails and the album is left after it.  When the track is
    tagged and the gain tool fails, the album is left after the gain
    tool. *)
Lemma importEntry_first_failure_ends_album_witness :
  let e := mkFileInfo "A" true in
  let entries := [mkFileInfo "a.mp3" false] in
  let h := stateless (Doubles.folder_env entries (mkCmdResult "" "" Doubles.failed)) in
  let h' := stateless (Doubles.folder_env entries (Doubles.ok "{tagged}")) in
  let scan := [Ev (ReadDir "/in/A") (entries, None)] in
  (run h tt (getAudioFiles "/in/A") = (scan, tt, Returned (["/in/A/a.mp3"], None)) /\
   result h tt (@getAlbumMetadata Doubles.decoders "/in/A" "/in/A/a.mp3")
   = Returned (None, Some (ErrWrap "metadata lookup failed"
                             (ErrExt "exit status 1"))) /\
   run h tt (@importEntry Doubles.decoders "/in" "/lib" e)
   = ((scan ++ trace h tt (@getAlbumMetadata Doubles.decoders "/in/A" "/in/A/a.mp3"))%list,
      tt, Returned tt)) /\
  (run h' tt (getAudioFiles "/in/A") = (scan, tt, Returned (["/in/A/a.mp3"], None)) /\
   result h' tt (@getAlbumMetadata Doubles.decoders "/in/A" "/in/A/a.mp3")
   = Returned (Some (mkMusicMetadata "Foo Fighters" "Bar" "Song"), None) /\
   result h' tt (applyReplayGain "/in/A") = Returned Doubles.failed /\
   run h' tt (@importEntry Doubles.decoders "/in" "/lib" e)
   = ((scan ++ trace h' tt (@getAlbumMetadata Doubles.decoders "/in/A" "/in/A/a.mp3")
            ++ trace h' tt (applyReplayGain "/in/A"))%list,
      tt, Returned tt)).
Proof.
  intros e entries h h' scan. split.
  - split; [reflexivity|]. split; [reflexivity|].
    apply (proj1 (@importEntry_first_failure_ends_album Doubles.decoders unit
                    h tt tt tt "/in" "/lib" e "/in/A/a.mp3" [] _ _ _ _
                    eq_refl eq_refl eq_refl)).
    discriminate.
  - split; [reflexivity|]. split; [reflexivity|]. split; [reflexivity|].
    apply (proj2 (@importEntry_first_failure_ends_album Doubles.decoders unit
                    h' tt tt tt "/in" "/lib" e "/in/A/a.mp3" [] _ _ _ _
                    eq_refl eq_refl eq_refl)
             eq_refl _ tt (ErrExt "exit status 1") eq_refl).
Defined.

(** A file of the import directory is passed over without any effect; a
    folder that cannot be read is left after the failed read. *)
Lemma importEntry_leaves_other_entries_alone_witness :
  let h := stateless Doubles.nothing in
  run h tt (@importEntry Doubles.decoders "/in" "/lib" (mkFileInfo "notes.txt" false))
  = ([], tt, Returned tt) /\
  run h tt (getAudioFiles "/in/A")
  = ([Ev (ReadDir "/in/A") ([], Doubles.missing)], tt, Returned ([], Doubles.missing)) /\
  run h tt (@importEntry Doubles.decoders "/in" "/lib" (mkFileInfo "A" true))
  = ([Ev (ReadDir "/in/A") ([], Doubles.missing)], tt, Returned tt).
Proof.
  intros h. split; [|split; [reflexivity|]].
  - apply (proj1 (@importEntry_leaves_other_entries_alone Doubles.decoders unit
                    h tt tt "/in" "/lib" (mkFileInfo "notes.txt" false)
                    [] None [])).
    reflexivity.
  - apply (proj2 (@importEntry_leaves_other_entries_alone Doubles.decoders unit
                    h tt tt "/in" "/lib" (mkFileInfo "A" true)
                    [] Doubles.missing _) eq_refl eq_refl).
    left. discriminate.
Defined.



(* ===================================================================== *)
(** * More on the web server                                              *)
(* ===================================================================== *)

Module ServerMore.
Import Server ServerFacts.

Lemma count_fresh (f : goroutine -> bool) (requests : list goroutine) :
  (forall g, fresh g -> f g = false) ->
  Forall fresh requests -> count f requests = 0.
Proof.
  intros Hf Hfresh. unfold count.
  induction Hfresh as [|g l Hg _ IH]; [reflexivity|].
  cbn. now rewrite (Hf g Hg).
Qed.

Lemma mutex_step (c c' : config) :
  count in_critical (pool c) = (if importerMu c then 1 else 0) ->
  step c c' ->
  count in_critical (pool c') = (if importerMu c' then 1 else 0).
Proof.
  intros Hinv Hst. destruct Hst as [i c c' Hstep].
  unfold step_at in Hstep.
  destruct (pool c !! i) as [g|] eqn:Hg; [|discriminate]. cbn in Hstep.
  pose proof (fun y => count_insert in_critical (pool c) i g y Hg) as Hins.
  destruct g; cbn in Hstep;
    repeat match type of Hstep with
           | (if ?b then _ else _) = _ => destruct b eqn:?
           end;
    try discriminate; injection Hstep as <-; cbn;
    match goal with
    | |- context [<[_:=?y]> _] => specialize (Hins y)
    end;
    cbn in Hins; unfold count in *; cbn;
    rewrite ?List.filter_app, ?length_app; cbn;
    repeat match goal with
           | Hb : importerMu c = _ |- _ => rewrite Hb in *; clear Hb
           end;
    try (destruct (importerMu c)); cbn; lia.
Qed.

(** X26. Mutual exclusion: however the handlers of any requests are
    interleaved, the handlers between [importerMu.Lock()] and
    [importerMu.Unlock()] are one when the mutex is held and none when
    it is free. *)
Theorem mutex_held_by_one (requests : list goroutine) (c : config) :
  Forall fresh requests -> steps (start requests) c ->
  count in_critical (pool c) = if importerMu c then 1 else 0.
Proof.
  intros Hfresh Hsteps. remember (start requests) as c0 eqn:Hc0.
  induction Hsteps as [c|c1 c2 c3 _ IH Hstep]; subst.
  - cbn. apply count_fresh; [|exact Hfresh].
    intros [] Hg; try contradiction; reflexivity.
  - eapply mutex_step; [apply IH; reflexivity | exact Hstep].
Qed.

Lemma served_start (requests : list goroutine) :
  Forall fresh requests -> served requests (start requests).
Proof.
  intros Hfresh. exists requests, []. cbn. rewrite app_nil_r.
  split; [reflexivity|]. split; [|constructor].
  induction Hfresh as [|g l Hg _ IH]; constructor; [|exact IH].
  destruct g; try contradiction; cbn; [apply String.eqb_refl | reflexivity].
Qed.

Lemma follows_step (r g : goroutine) (c c' : config) (i : nat) :
  follows r g = true -> pool c !! i = Some g -> step_at i c = Some c' ->
  exists g' spawned,
    pool c' = (<[i := g']> (pool c) ++ spawned)%list /\
    follows r g' = true /\
    Forall (fun g => is_import g = true) spawned.
Proof.
  intros Hf Hg Hstep. unfold step_at in Hstep. rewrite Hg in Hstep.
  cbn in Hstep.
  destruct r, g; try discriminate Hf; cbn in Hstep, Hf;
    repeat match type of Hstep with
           | (if ?b then _ else _) = _ => destruct b eqn:?
           end;
    try discriminate; injection Hstep as <-; cbn;
    match goal with
    | |- context [(<[_:=?y]> _ ++ [?s])%list] => exists y, [s]
    | |- context [<[_:=?y]> _] => exists y, []
    end; rewrite ?app_nil_r; (split; [reflexivity|]);
    (split; [|repeat constructor]); cbn; rewrite ?Hf; try reflexivity.
  all: apply String.eqb_eq in Hf; subst.
  all: destruct (String.eqb _ MethodPost); cbn in *; congruence.
Qed.

Lemma served_step (requests : list goroutine) (c c' : config) :
  served requests c -> step c c' -> served requests c'.
Proof.
  intros (handlers & runs & Hpool & Hfollow & Hruns) Hst.
  destruct Hst as [i c c' Hstep].
  destruct (pool c !! i) as [g|] eqn:Hg;
    [|unfold step_at in Hstep; rewrite Hg in Hstep; discriminate].
  destruct (decide (i < length handlers)) as [Hi|Hi].
  - assert (Hh : handlers !! i = Some g).
    { rewrite Hpool, lookup_app_l in Hg by exact Hi. exact Hg. }
    destruct (Forall2_lookup_r _ _ _ _ _ Hfollow Hh) as (r & Hr & Hrg).
    destruct (follows_step r g c c' i Hrg Hg Hstep)
      as (g' & spawned & Hpool' & Hrg' & Hsp).
    exists (<[i := g']> handlers), (runs ++ spawned)%list.
    split; [|split].
    + rewrite Hpool', Hpool, insert_app_l by exact Hi.
      now rewrite <- app_assoc.
    + rewrite <- (list_insert_id requests i r Hr).
      apply Forall2_insert; assumption.
    + apply Forall_app_2; assumption.
  - assert (Hrun : runs !! (i - length handlers) = Some g).
    { rewrite Hpool, lookup_app_r in Hg by lia. exact Hg. }
    assert (Himp : is_import g = true).
    { rewrite Forall_forall in Hruns. apply Hruns.
      eapply list_elem_of_lookup_2; eassumption. }
    unfold step_at in Hstep. rewrite Hg in Hstep. cbn in Hstep.
    destruct g; try discriminate Himp; try discriminate Hstep.
    injection Hstep as <-. cbn.
    exists handlers, (<[i - length handlers := Imported]> runs).
    split; [|split].
    + cbn. rewrite Hpool. rewrite insert_app_r_alt by lia. reflexivity.
    + exact Hfollow.
    + apply Forall_insert; [exact Hruns | reflexivity].
Qed.

Lemma served_steps (requests : list goroutine) (c : config) :
  Forall fresh requests -> steps (start requests) c -> served requests c.
Proof.
  intros Hfresh Hsteps. remember (start requests) as c0 eqn:Hc0.
  induction Hsteps as [c|c1 c2 c3 _ IH Hstep]; subst.
  - apply served_start, Hfresh.
  - eapply served_step; [apply IH; reflexivity | exact Hstep].
Qed.

(** X27. However the handlers are interleaved, a handler that has
    answered has answered by its route: 405 for a request to [/run] that
    is no POST, 303 for a POST to [/run], 200 for a request to [/]. *)
Theorem handler_answers_by_route
  (requests : list goroutine) (c : config) (i : nat)
  (request : goroutine) (status : Z) (running : bool) :
  Forall fresh requests -> steps (start requests) c ->
  requests !! i = Some request ->
  pool c !! i = Some (Responded status running) ->
  status = status_of request.
Proof.
  intros Hfresh Hsteps Hr Hg.
  destruct (served_steps _ _ Hfresh Hsteps)
    as (handlers & runs & Hpool & Hfollow & _).
  destruct (Forall2_lookup_l _ _ _ _ _ Hfollow Hr) as (g & Hh & Hrg).
  rewrite Hpool, lookup_app_l in Hg by (eapply lookup_lt_Some; eassumption).
  rewrite Hh in Hg. injection Hg as ->.
  rewrite Forall_forall in Hfresh.
  assert (Hfr : fresh request)
    by (apply Hfresh; eapply list_elem_of_lookup_2; eassumption).
  destruct request; try contradiction; cbn in Hrg |- *.
  - destruct (String.eqb method MethodPost); apply Z.eqb_eq, Hrg.
  - apply Z.eqb_eq, Hrg.
Qed.

Lemma count_follows (f : goroutine -> bool) (requests handlers : list goroutine) :
  (forall r g, follows r g = true -> f g = true -> is_post r = true) ->
  Forall2 (fun r g => follows r g = true) requests handlers ->
  count f handlers <= count is_post requests.
Proof.
  intros Hf Hfollow. unfold count.
  induction Hfollow as [|r g rs gs Hrg _ IH]; [reflexivity|].
  cbn. destruct (f g) eqn:Hfg.
  - rewrite (Hf r g Hrg Hfg). cbn. lia.
  - destruct (is_post r); cbn; lia.
Qed.

(** X28. However the handlers are interleaved, the runs of the importer
    that were started are no more than the POST requests to [/run]: no
    other request starts one. *)
Theorem runs_bounded_by_posts (requests : list goroutine) (c : config) :
  Forall fresh requests -> steps (start requests) c ->
  started_runs c <= count is_post requests.
Proof.
  intros Hfresh Hsteps.
  destruct (flag_never_set _ _ Hfresh Hsteps) as (_ & _ & ->).
  destruct (served_steps _ _ Hfresh Hsteps)
    as (handlers & runs & -> & Hfollow & Hruns).
  rewrite count_app.
  assert (Hz : count has_spawned runs = 0).
  { unfold count. induction Hruns as [|g l Hg _ IH]; [reflexivity|].
    cbn. destruct g; try discriminate Hg; exact IH. }
  rewrite Hz, Nat.add_0_r. apply count_follows; [|exact Hfollow].
  intros r g Hrg Hsp. destruct r, g; try discriminate; cbn in *; try exact Hrg.
  all: try (destruct (String.eqb method MethodPost); [reflexivity|]).
  all: apply andb_prop in Hsp as [Hs _];
    apply Z.eqb_eq in Hs, Hrg; subst; discriminate.
Qed.
Lemma fresh_requests :
  Forall fresh [RunEnter MethodPost; RunEnter "GET"; HomeEnter].
Proof. repeat constructor. Qed.

(** A POST and a GET to [/run] and a request to [/]: after the GET is
    answered and the POST has taken the lock, one handler is between
    lock and unlock. *)
Lemma mutex_held_by_one_witness :
  let requests := [RunEnter MethodPost; RunEnter "GET"; HomeEnter] in
  let c := mkConfig true false
             [RunLocked; Responded StatusMethodNotAllowed false; HomeEnter] in
  Forall fresh requests /\
  schedule [1; 0] (start requests) = Some c /\
  count in_critical (pool c) = 1.
Proof.
  intros requests c. split; [exact fresh_requests|]. split; [reflexivity|].
  exact (mutex_held_by_one requests c fresh_requests
           (schedule_steps [1; 0] (start requests) c eq_refl)).
Defined.

(** The same requests: the GET to [/run] is answered with 405. *)
Lemma handler_answers_by_route_witness :
  let requests := [RunEnter MethodPost; RunEnter "GET"; HomeEnter] in
  let c := mkConfig true false
             [RunLocked; Responded StatusMethodNotAllowed false; HomeEnter] in
  Forall fresh requests /\
  schedule [1; 0] (start requests) = Some c /\
  requests !! 1 = Some (RunEnter "GET") /\
  pool c !! 1 = Some (Responded StatusMethodNotAllowed false) /\
  StatusMethodNotAllowed = status_of (RunEnter "GET").
Proof.
  intros requests c. split; [exact fresh_requests|].
  split; [reflexivity|]. split; [reflexivity|]. split; [reflexivity|].
  exact (handler_answers_by_route requests c 1 (RunEnter "GET")
           StatusMethodNotAllowed false fresh_requests
           (schedule_steps [1; 0] (start requests) c eq_refl) eq_refl eq_refl).
Defined.

(** The same requests, the POST handled to its end: one run for the one
    POST. *)
Lemma runs_bounded_by_posts_witness :
  let requests := [RunEnter MethodPost; RunEnter "GET"; HomeEnter] in
  let c := mkConfig false false
             [Responded StatusSeeOther false; RunEnter "GET"; HomeEnter; Importing] in
  Forall fresh requests /\
  schedule [0; 0; 0; 0; 0] (start requests) = Some c /\
  started_runs c <= count is_post requests.
Proof.
  intros requests c. split; [exact fresh_requests|]. split; [reflexivity|].
  exact (runs_bounded_by_posts requests c fresh_requests
           (schedule_steps [0; 0; 0; 0; 0] (start requests) c eq_refl)).
Defined.

End ServerMore.


(* ===================================================================== *)
(** * What the lyrics step touches                                        *)
(* ===================================================================== *)

Section LyricsWalk.
Context `{Decoders} {S : Type} (h : Handler S).
Import GoStrings.

Lemma of_bytes_app (a b : list ascii) :
  of_bytes (a ++ b) = of_bytes a ++ of_bytes b.
Proof.
  induction a as [|c a IH]; [reflexivity|].
  cbn. now rewrite append_cons, IH.
Qed.

Lemma prefix_append (p s : string) : String.prefix p (p ++ s) = true.
Proof.
  induction p as [|c p IH]; [now destruct s|].
  rewrite append_cons. cbn. destruct (ascii_dec c c); [exact IH | contradiction].
Qed.

Lemma HasSuffix_append (s suffix : string) : HasSuffix (s ++ suffix) suffix = true.
Proof.
  unfold HasSuffix, rev_string.
  rewrite bytes_app, rev_app_distr, of_bytes_app. apply prefix_append.
Qed.

Lemma lyricsWalkFn_sidecar_effects (path : string) (info : option FileInfo)
    (err : option error) :
  performs_only sidecar_effect (lyricsWalkFn path info err).
Proof.
  unfold lyricsWalkFn, readTags, TrackDuration, fetchLRCLibLyrics.
  repeat first [writes_step
               | apply performs_only_trigger; apply HasSuffix_append].
Qed.

(** X29. [DownloadAlbumLyrics] only looks at the tree and at sidecars, runs
    ffprobe, asks the provider and closes its answer, and writes files
    whose names end in [.lrc]: it never removes, renames or tags a file,
    and it never writes over an audio file. *)
Theorem DownloadAlbumLyrics_only_sidecars (s : S) (albumDir : string) :
  Forall sidecar_effect (calls (trace h s (DownloadAlbumLyrics albumDir))).
Proof.
  apply performs_only_trace. unfold DownloadAlbumLyrics.
  apply performs_only_Walk; [exact I|]. apply lyricsWalkFn_sidecar_effects.
Qed.
End LyricsWalk.


(* ===================================================================== *)
(** * The two tests for an audio file                                     *)
(* ===================================================================== *)

Section AudioTests.
Import GoStrings.

Lemma lower_byte_dot (c : ascii) :
  Ascii.eqb (lower_byte c) "." = Ascii.eqb c ".".
Proof. destruct c as [[] [] [] [] [] [] [] []]; vm_compute; reflexivity. Qed.

Lemma lower_byte_slash (c : ascii) :
  Ascii.eqb (lower_byte c) "/" = Ascii.eqb c "/".
Proof. destruct c as [[] [] [] [] [] [] [] []]; vm_compute; reflexivity. Qed.

Lemma Split_ToLower (s : string) :
  Split (ToLower s) "/" = map ToLower (Split s "/").
Proof.
  induction s as [|c s IH]; [reflexivity|].
  cbn. rewrite lower_byte_slash, IH.
  destruct (Ascii.eqb c "/"); [reflexivity|].
  destruct (Split s "/"); reflexivity.
Qed.

Lemma last_ToLower (l : list string) :
  List.last (map ToLower l) "" = ToLower (List.last l "").
Proof.
  induction l as [|a [|b l] IH]; [reflexivity | reflexivity | exact IH].
Qed.

Lemma from_last_dot_ToLower (s : string) :
  FilePath.from_last_dot (ToLower s) = ToLower (FilePath.from_last_dot s).
Proof.
  induction s as [|c s IH]; [reflexivity|].
  cbn. rewrite IH, lower_byte_dot.
  destruct (FilePath.from_last_dot s); [|reflexivity].
  cbn. destruct (Ascii.eqb c "."); reflexivity.
Qed.

Lemma Ext_ToLower (s : string) :
  FilePath.Ext (ToLower s) = ToLower (FilePath.Ext s).
Proof.
  unfold FilePath.Ext, FilePath.last_element, FilePath.Separator.
  now rewrite Split_ToLower, last_ToLower, from_last_dot_ToLower.
Qed.

(** The last piece of a split is a suffix. *)
Lemma Split_last_suffix (s : string) (sep : ascii) :
  (exists a, s = a ++ List.last (Split s sep) "") /\
  (forall p, Split s sep = [p] -> p = s).
Proof.
  induction s as [|c s [[a Ha] Hone]].
  - split; [now exists "" | now intros p [= <-]].
  - cbn [Split]. destruct (Split_cons_shape s sep) as (p & ps & Hs).
    rewrite Hs in *. destruct (Ascii.eqb c sep).
    + split; [|discriminate].
      exists (String c a). rewrite append_cons. f_equal. exact Ha.
    + destruct ps as [|q qs].
      * rewrite (Hone p eq_refl). split; [now exists "" | now intros p' [= <-]].
      * split; [|discriminate].
        exists (String c a). rewrite append_cons. f_equal. exact Ha.
Qed.

Lemma from_last_dot_suffix (s : string) :
  exists a, s = a ++ FilePath.from_last_dot s.
Proof.
  induction s as [|c s [a Ha]]; [now exists ""|].
  cbn. destruct (FilePath.from_last_dot s) as [|d ext].
  - destruct (Ascii.eqb c "."); [now exists ""|].
    exists (String c s). now rewrite append_nil_r.
  - exists (String c a). rewrite append_cons. f_equal. exact Ha.
Qed.

Lemma Ext_suffix (s : string) : exists a, s = a ++ FilePath.Ext s.
Proof.
  unfold FilePath.Ext, FilePath.last_element.
  destruct (Split_last_suffix s FilePath.Separator) as [[a Ha] _].
  destruct (from_last_dot_suffix (List.last (Split s FilePath.Separator) ""))
    as [b Hb].
  exists (a ++ b). rewrite append_assoc, <- Hb. exact Ha.
Qed.

Lemma Split_append_piece (a t : string) (sep : ascii) :
  Split t sep = [t] ->
  Split (a ++ t) sep
  = (removelast (Split a sep) ++ [(List.last (Split a sep) "" ++ t)%string])%list.
Proof.
  intros Ht. induction a as [|c a IH]; [exact Ht|].
  rewrite append_cons. cbn [Split]. rewrite IH.
  destruct (Split_cons_shape a sep) as (p & ps & ->).
  destruct (Ascii.eqb c sep).
  - reflexivity.
  - destruct ps as [|q qs]; reflexivity.
Qed.

Lemma from_last_dot_append (b e : string) :
  FilePath.from_last_dot e = e -> e <> "" ->
  FilePath.from_last_dot (b ++ e) = e.
Proof.
  intros He Hne. induction b as [|c b IH]; [exact He|].
  rewrite append_cons. cbn. rewrite IH.
  destruct e; [contradiction | reflexivity].
Qed.

Lemma Ext_append (a e : string) :
  Split e "/" = [e] -> FilePath.from_last_dot e = e -> e <> "" ->
  FilePath.Ext (a ++ e) = e.
Proof.
  intros Hsep He Hne.
  unfold FilePath.Ext, FilePath.last_element, FilePath.Separator.
  rewrite (Split_append_piece a e "/" Hsep), last_last.
  now apply from_last_dot_append.
Qed.

Lemma prefix_iff (p q : string) :
  String.prefix p q = true <-> exists r, q = p ++ r.
Proof.
  revert q. induction p as [|c p IH]; intros q.
  - split; [intros _; now exists q | now destruct q].
  - destruct q as [|d q]; cbn.
    + split; [discriminate | intros [r Hr]; discriminate Hr].
    + destruct (ascii_dec c d) as [->|Hcd].
      * rewrite IH. split; intros [r Hr]; exists r.
        -- rewrite append_cons. now f_equal.
        -- rewrite append_cons in Hr. now injection Hr.
      * split; [discriminate|]. intros [r Hr].
        rewrite append_cons in Hr. injection Hr as Hd _. now subst.
Qed.

Lemma bytes_of_bytes (l : list ascii) : bytes (of_bytes l) = l.
Proof. induction l as [|c l IH]; [reflexivity|]. cbn. now rewrite IH. Qed.

Lemma of_bytes_bytes (s : string) : of_bytes (bytes s) = s.
Proof. induction s as [|c s IH]; [reflexivity|]. cbn. now rewrite IH. Qed.

Lemma rev_string_append (a b : string) :
  rev_string (a ++ b) = rev_string b ++ rev_string a.
Proof.
  unfold rev_string. now rewrite bytes_app, rev_app_distr, of_bytes_app.
Qed.

Lemma rev_string_involutive (s : string) : rev_string (rev_string s) = s.
Proof.
  unfold rev_string. now rewrite bytes_of_bytes, rev_involutive, of_bytes_bytes.
Qed.

Lemma HasSuffix_iff (s suffix : string) :
  HasSuffix s suffix = true <-> exists a, s = a ++ suffix.
Proof.
  unfold HasSuffix. rewrite prefix_iff. split.
  - intros [r Hr]. exists (rev_string r).
    rewrite <- (rev_string_involutive s), Hr, rev_string_append.
    now rewrite rev_string_involutive.
  - intros [a ->]. exists (rev_string a). apply rev_string_append.
Qed.

(** The test on the extension and the test on the end of the name
    agree, for an extension that begins with its only dot and has no
    separator. *)
Lemma extension_test_is_suffix_test (name e : string) :
  Split e "/" = [e] -> FilePath.from_last_dot e = e -> e <> "" ->
  String.eqb (ToLower (FilePath.Ext name)) e = HasSuffix (ToLower name) e.
Proof.
  intros Hsep He Hne. rewrite <- Ext_ToLower.
  destruct (HasSuffix (ToLower name) e) eqn:Hs.
  - apply HasSuffix_iff in Hs as [a ->]. rewrite Ext_append by assumption.
    apply String.eqb_refl.
  - destruct (String.eqb_spec (FilePath.Ext (ToLower name)) e) as [Heq|]; [|reflexivity].
    assert (Hyes : HasSuffix (ToLower name) e = true).
    { apply HasSuffix_iff. rewrite <- Heq. apply Ext_suffix. }
    congruence.
Qed.

(** X30. The walk function of [EmbedAlbumArtIntoFolder] embeds into
    exactly the files that the importer counts as audio files: its test
    on the end of the lower-cased name and the test of [getAudioFiles] on
    the lower-cased extension agree for every name.  Such a file is given
    to [embedCoverMP3] when its extension is [.mp3] and to
    [embedCoverFLAC] otherwise; every other entry is passed without
    effect. *)
Theorem embedWalkFn_embeds_tracks (data path : string) (info : FileInfo) :
  Media.embedWalkFn data path (Some info) None =
  if is_audio_entry info
  then if String.eqb (ToLower (FilePath.Ext (Name info))) ".mp3"
       then Media.embedCoverMP3 path data
       else Media.embedCoverFLAC path data
  else mret None.
Proof.
  unfold Media.embedWalkFn, is_audio_entry, is_audio_ext. cbn.
  destruct (IsDir info); [reflexivity|]. cbn.
  rewrite <- !extension_test_is_suffix_test by (reflexivity || discriminate).
  destruct (String.eqb _ ".mp3"); [now rewrite orb_true_r|].
  destruct (String.eqb _ ".flac"); reflexivity.
Qed.
End AudioTests.
